(** * xray-steps-parser: the flattening core of [streamlit.app.py]

    A shallow embedding of the helpers of [src/streamlit.app.py]
    ([find_col], [parse_manual_steps_cell], [_clean_text], [build_flat],
    [collapse_repeats]) and of the column check the script performs before
    it flattens, followed by the properties of the specification.

    Python values are modelled as a tree type [value]; a [str] is the list
    of its code points.  Exceptions are explicit: a function that can
    raise returns a [res].  The library calls the code relies on are
    modelled next to the function that uses them, each from its documented
    behaviour: [str.strip], [str.replace], [re.sub] with [\s+],
    [json.loads], and the pandas calls of [build_flat] and
    [collapse_repeats].  Three library functions whose tables are outside
    the model are taken as an interface ([PyLib]): Unicode lowercasing,
    the repr of a [str] and the repr of a finite [float]. *)

From Stdlib Require Import NArith ZArith String Ascii DecimalString Lia.
From stdpp Require Import base option list.

Local Open Scope N_scope.

(** ** Python strings *)

(** A [str] is the sequence of its code points. *)
Abbreviation pystr := (list N).

(** A literal of ASCII characters. *)
Definition u (s : string) : pystr :=
  List.map N_of_ascii (list_ascii_of_string s).

Arguments u : simpl never.

(** One printable ASCII character. *)
Definition ch (a : ascii) : N := N_of_ascii a.

Arguments ch : simpl never.

Definition c_dquote : N := 34.
Definition c_squote : N := 39.
Definition c_backslash : N := 92.
Definition c_space : N := 32.
Definition c_nbsp : N := 160.

(** [str.isspace] on one character; the same set is what [str.strip()]
    removes and what [\s] matches in a [str] pattern. *)
Definition isspace (c : N) : bool :=
  ((9 <=? c) && (c <=? 13)) || ((28 <=? c) && (c <=? 32))
  || (c =? 133) || (c =? 160) || (c =? 5760)
  || ((8192 <=? c) && (c <=? 8202))
  || (c =? 8232) || (c =? 8233) || (c =? 8239) || (c =? 8287)
  || (c =? 12288).

Fixpoint lstrip (s : pystr) : pystr :=
  match s with
  | [] => []
  | c :: s' => if isspace c then lstrip s' else s
  end.

Definition rstrip (s : pystr) : pystr := rev (lstrip (rev s)).

(** [s.strip()] *)
Definition strip (s : pystr) : pystr := rstrip (lstrip s).

(** [s.replace(a, b)] for one-character [a] and [b]. *)
Definition replace_char (a b : N) (s : pystr) : pystr :=
  List.map (fun c => if c =? a then b else c) s.

(** [re.sub(r"\s+", " ", s)]: [in_run] tells that the previous character
    was already part of the run being replaced. *)
Fixpoint sub_ws (in_run : bool) (s : pystr) : pystr :=
  match s with
  | [] => []
  | c :: s' =>
      if isspace c
      then (if in_run then sub_ws true s' else c_space :: sub_ws true s')
      else c :: sub_ws false s'
  end.

(** [sep.join(parts)] *)
Fixpoint join (sep : pystr) (parts : list pystr) : pystr :=
  match parts with
  | [] => []
  | [p] => p
  | p :: ps => p ++ sep ++ join sep ps
  end.

(** [needle in hay] *)
Fixpoint starts_with (p s : pystr) : bool :=
  match p, s with
  | [], _ => true
  | a :: p', b :: s' => (a =? b) && starts_with p' s'
  | _ :: _, [] => false
  end.

Fixpoint contains (needle hay : pystr) : bool :=
  starts_with needle hay ||
  match hay with
  | [] => false
  | _ :: hay' => contains needle hay'
  end.

(** ** Python values *)

(** A float is kept as what it was read from: the decimal literal of a
    finite float, or one of the three special values. *)
Inductive pyfloat :=
| FNan
| FInf (negative : bool)
| FDec (literal : pystr).

(** The values that [json.loads] produces and that table cells hold.  A
    [dict] keeps its items in insertion order, keys unique. *)
Inductive value :=
| VNone
| VBool (b : bool)
| VInt (z : Z)
| VFloat (f : pyfloat)
| VStr (s : pystr)
| VList (l : list value)
| VDict (d : list (pystr * value)).

(** [d.get(k)], [None] of the option when [k] is not a key. *)
Fixpoint dict_get (k : pystr) (d : list (pystr * value)) : option value :=
  match d with
  | [] => None
  | (k', v) :: d' => if decide (k' = k) then Some v else dict_get k d'
  end.

(** [d[k] = v] *)
Fixpoint dict_set (k : pystr) (v : value) (d : list (pystr * value))
  : list (pystr * value) :=
  match d with
  | [] => [(k, v)]
  | (k', v') :: d' =>
      if decide (k' = k) then (k, v) :: d' else (k', v') :: dict_set k v d'
  end.

(** [dict(pairs)] *)
Definition dict_of_pairs (pairs : list (pystr * value)) : list (pystr * value) :=
  fold_left (fun d kv => dict_set kv.1 kv.2 d) pairs [].

(** The library functions taken as given: [str.lower] (of which only
    this is used: the lowercase of a string is empty exactly when the
    string is), [repr] of a [str], and [repr] of the float nearest to a
    decimal literal. *)
Class PyLib := {
  str_lower : pystr -> pystr;
  str_repr : pystr -> pystr;
  float_repr : pystr -> pystr;
  str_lower_empty : forall s, str_lower s = [] <-> s = []
}.

(** An instance for evaluating examples: ASCII lowercasing, strings
    repr'd between single quotes, float literals printed as written. *)
Definition ascii_lower_char (c : N) : N :=
  if (65 <=? c) && (c <=? 90) then c + 32 else c.

Definition ascii_lib : PyLib.
Proof.
  refine {| str_lower := List.map ascii_lower_char;
            str_repr := fun s => c_squote :: s ++ [c_squote];
            float_repr := fun lit => lit |}.
  intros [|c s]; split; intros E; try reflexivity; discriminate E.
Defined.

(** Exceptions, and results of code that may raise. *)
Inductive exn := AttributeError | KeyError | ValueError.

Inductive res (A : Type) :=
| Ok (a : A)
| Raise (e : exn).
Arguments Ok {A} a.
Arguments Raise {A} e.

#[global] Instance res_ret : MRet res := fun A a => Ok a.
#[global] Instance res_bind : MBind res := fun A B k m =>
  match m with
  | Ok a => k a
  | Raise e => Raise e
  end.

(** The results of a loop body run over a list, stopping at the first
    exception. *)
Fixpoint for_each {A B : Type} (f : A -> res B) (l : list A) : res (list B) :=
  match l with
  | [] => Ok []
  | a :: l' => b ← f a; bs ← for_each f l'; Ok (b :: bs)
  end.

(** ** [json.loads] *)

Module Json.

(** The whitespace of the JSON grammar. *)
Definition ws (c : N) : bool :=
  (c =? 32) || (c =? 9) || (c =? 10) || (c =? 13).

Fixpoint skip_ws (s : pystr) : pystr :=
  match s with
  | [] => []
  | c :: s' => if ws c then skip_ws s' else s
  end.

Definition is_digit (c : N) : bool := (48 <=? c) && (c <=? 57).

Definition hex_digit (c : N) : option N :=
  if is_digit c then Some (c - 48)
  else if (97 <=? c) && (c <=? 102) then Some (c - 87)
  else if (65 <=? c) && (c <=? 70) then Some (c - 55)
  else None.

Definition hex4 (a b c d : N) : option N :=
  match hex_digit a, hex_digit b, hex_digit c, hex_digit d with
  | Some x, Some y, Some z, Some w => Some (((x * 16 + y) * 16 + z) * 16 + w)
  | _, _, _, _ => None
  end.

(** The character a one-letter escape stands for. *)
Definition escape (e : N) : option N :=
  if e =? c_dquote then Some c_dquote
  else if e =? c_backslash then Some c_backslash
  else if e =? ch "/" then Some (ch "/")
  else if e =? ch "b" then Some 8
  else if e =? ch "f" then Some 12
  else if e =? ch "n" then Some 10
  else if e =? ch "r" then Some 13
  else if e =? ch "t" then Some 9
  else None.

Definition high_surrogate (c : N) : bool := (55296 <=? c) && (c <=? 56319).
Definition low_surrogate (c : N) : bool := (56320 <=? c) && (c <=? 57343).
Definition join_surrogates (hi lo : N) : N :=
  65536 + ((hi - 55296) * 1024 + (lo - 56320)).

(** The string that ends at the next unescaped double quote, and what
    follows it ([strict] mode: no raw control character). *)
Fixpoint scanstring (s : pystr) : option (pystr * pystr) :=
  match s with
  | [] => None
  | c :: s' =>
      if c =? c_dquote then Some ([], s')
      else if c =? c_backslash then
        match s' with
        | [] => None
        | e :: s'' =>
            if e =? ch "u" then
              match s'' with
              | h1 :: h2 :: h3 :: h4 :: t =>
                  match hex4 h1 h2 h3 h4 with
                  | None => None
                  | Some uni =>
                      let lone :=
                        match scanstring t with
                        | Some (str, r) => Some (uni :: str, r)
                        | None => None
                        end in
                      if high_surrogate uni then
                        match t with
                        | b :: v :: g1 :: g2 :: g3 :: g4 :: t2 =>
                            if (b =? c_backslash) && (v =? ch "u") then
                              match hex4 g1 g2 g3 g4 with
                              | None => None
                              | Some uni2 =>
                                  if low_surrogate uni2 then
                                    match scanstring t2 with
                                    | Some (str, r) =>
                                        Some (join_surrogates uni uni2 :: str, r)
                                    | None => None
                                    end
                                  else lone
                              end
                            else lone
                        | _ => lone
                        end
                      else lone
                  end
              | _ => None
              end
            else
              match escape e with
              | None => None
              | Some x =>
                  match scanstring s'' with
                  | Some (str, r) => Some (x :: str, r)
                  | None => None
                  end
              end
        end
      else if c <? 32 then None
      else
        match scanstring s' with
        | Some (str, r) => Some (c :: str, r)
        | None => None
        end
  end.

(** The longest prefix of digits, and the rest. *)
Fixpoint span_digits (s : pystr) : pystr * pystr :=
  match s with
  | [] => ([], [])
  | c :: s' =>
      if is_digit c
      then (let '(ds, r) := span_digits s' in (c :: ds, r))
      else ([], s)
  end.

Definition digits_to_Z (ds : pystr) : Z :=
  fold_left (fun acc c => (acc * 10 + Z.of_N (c - 48))%Z) ds 0%Z.

(** A number: an optional minus sign; an integer part, either a lone
    zero or digits that start with a non-zero one; an optional fraction,
    a dot and at least one digit; an optional exponent, [e] or [E], an
    optional sign and at least one digit.  It is an [int] when it has
    neither fraction nor exponent, a [float] otherwise. *)
Definition scan_number (s : pystr) : option (value * pystr) :=
  let '(sign, s1) :=
    match s with
    | c :: t => if c =? ch "-" then ([c], t) else ([], s)
    | [] => ([], s)
    end in
  match s1 with
  | [] => None
  | d :: t =>
      if is_digit d then
        let '(ip, r) := if d =? ch "0" then ([d], t) else span_digits s1 in
        let '(fp, r1) :=
          match r with
          | dot :: r' =>
              if dot =? ch "." then
                match span_digits r' with
                | ([], _) => ([], r)
                | (ds, r'') => (dot :: ds, r'')
                end
              else ([], r)
          | [] => ([], r)
          end in
        let '(ep, r2) :=
          match r1 with
          | e :: r' =>
              if (e =? ch "e") || (e =? ch "E") then
                let '(sg, r'') :=
                  match r' with
                  | c :: t' =>
                      if (c =? ch "+") || (c =? ch "-") then ([c], t') else ([], r')
                  | [] => ([], r')
                  end in
                match span_digits r'' with
                | ([], _) => ([], r1)
                | (ds, r3) => (e :: sg ++ ds, r3)
                end
              else ([], r1)
          | [] => ([], r1)
          end in
        match fp, ep with
        | [], [] =>
            Some (VInt (if sign is [] then digits_to_Z ip else - digits_to_Z ip)%Z, r2)
        | _, _ => Some (VFloat (FDec (sign ++ ip ++ fp ++ ep)), r2)
        end
      else None
  end.

(** [s] without the prefix [p], when it starts with it. *)
Fixpoint after_prefix (p s : pystr) : option pystr :=
  match p, s with
  | [], _ => Some s
  | a :: p', b :: s' => if a =? b then after_prefix p' s' else None
  | _ :: _, [] => None
  end.

(** The scanner: one value at the head of [s], and the rest.  [fuel]
    bounds the number of nested calls; [array_items] and [object_pairs]
    are the loops of [JSONArray] and [JSONObject], entered after the
    empty container has been ruled out. *)
Fixpoint scan_once (fuel : nat) (s : pystr) {struct fuel}
  : option (value * pystr) :=
  match fuel with
  | O => None
  | S n =>
      match s with
      | [] => None
      | c :: t =>
          if c =? c_dquote then
            match scanstring t with
            | Some (str, r) => Some (VStr str, r)
            | None => None
            end
          else if c =? ch "{" then
            match skip_ws t with
            | c' :: r =>
                if c' =? ch "}" then Some (VDict [], r)
                else
                  match object_pairs n (c' :: r) with
                  | Some (pairs, r') => Some (VDict (dict_of_pairs pairs), r')
                  | None => None
                  end
            | [] => None
            end
          else if c =? ch "[" then
            match skip_ws t with
            | c' :: r =>
                if c' =? ch "]" then Some (VList [], r)
                else
                  match array_items n (c' :: r) with
                  | Some (items, r') => Some (VList items, r')
                  | None => None
                  end
            | [] => None
            end
          else
            match after_prefix (u "null") s with
            | Some r => Some (VNone, r)
            | None =>
            match after_prefix (u "true") s with
            | Some r => Some (VBool true, r)
            | None =>
            match after_prefix (u "false") s with
            | Some r => Some (VBool false, r)
            | None =>
            match scan_number s with
            | Some vr => Some vr
            | None =>
            match after_prefix (u "NaN") s with
            | Some r => Some (VFloat FNan, r)
            | None =>
            match after_prefix (u "Infinity") s with
            | Some r => Some (VFloat (FInf false), r)
            | None =>
            match after_prefix (u "-Infinity") s with
            | Some r => Some (VFloat (FInf true), r)
            | None => None
            end end end end end end end
      end
  end
with array_items (fuel : nat) (s : pystr) {struct fuel}
  : option (list value * pystr) :=
  match fuel with
  | O => None
  | S n =>
      match scan_once n s with
      | None => None
      | Some (v, r) =>
          match skip_ws r with
          | c :: r' =>
              if c =? ch "]" then Some ([v], r')
              else if c =? ch "," then
                match array_items n (skip_ws r') with
                | Some (vs, r'') => Some (v :: vs, r'')
                | None => None
                end
              else None
          | [] => None
          end
      end
  end
with object_pairs (fuel : nat) (s : pystr) {struct fuel}
  : option (list (pystr * value) * pystr) :=
  match fuel with
  | O => None
  | S n =>
      match s with
      | c :: t =>
          if c =? c_dquote then
            match scanstring t with
            | None => None
            | Some (k, r) =>
                match skip_ws r with
                | c1 :: r1 =>
                    if c1 =? ch ":" then
                      match scan_once n (skip_ws r1) with
                      | None => None
                      | Some (v, r2) =>
                          match skip_ws r2 with
                          | c2 :: r3 =>
                              if c2 =? ch "}" then Some ([(k, v)], r3)
                              else if c2 =? ch "," then
                                match object_pairs n (skip_ws r3) with
                                | Some (ps, r4) => Some ((k, v) :: ps, r4)
                                | None => None
                                end
                              else None
                          | [] => None
                          end
                      end
                    else None
                | [] => None
                end
            end
          else None
      | [] => None
      end
  end.

(** [json.loads(s)] for a [str]: [None] stands for the exception the
    call raises (a [JSONDecodeError]).  A document must not start with
    a byte-order mark, and only whitespace may follow the value.  The
    fuel is enough for every document ([JsonFuel.loads_any_fuel]).  Two
    limits of the interpreter are not part of the model: its recursion
    limit, which makes the call raise on arrays and objects nested about
    a thousand deep, and its limit on the number of digits of an [int]
    literal. *)
Definition loads (s : pystr) : option value :=
  match s with
  | 65279 :: _ => None
  | _ =>
      match scan_once (S (2 * length s)) (skip_ws s) with
      | Some (v, r) => if skip_ws r is [] then Some v else None
      | None => None
      end
  end.

End Json.

(** ** The Cell Parser *)

Abbreviation dict := (list (pystr * value)).

(** [obj.get(k, default)]: only a [dict] has the method. *)
Definition get (obj : value) (k : pystr) (default : value) : res value :=
  match obj with
  | VDict d => Ok (from_option id default (dict_get k d))
  | _ => Raise AttributeError
  end.

Definition isinstance_dict (v : value) : bool :=
  match v with
  | VDict _ => true
  | _ => false
  end.

Section CellParser.
Context `{PyLib}.

Definition float_str (f : pyfloat) : pystr :=
  match f with
  | FNan => u "nan"
  | FInf false => u "inf"
  | FInf true => u "-inf"
  | FDec lit => float_repr lit
  end.

Fixpoint py_repr (v : value) : pystr :=
  match v with
  | VNone => u "None"
  | VBool true => u "True"
  | VBool false => u "False"
  | VInt z => u (NilZero.string_of_int (Z.to_int z))
  | VFloat f => float_str f
  | VStr s => str_repr s
  | VList l => u "[" ++ join (u ", ") (List.map py_repr l) ++ u "]"
  | VDict d =>
      u "{"
      ++ join (u ", ")
           (List.map (fun kv => str_repr (fst kv) ++ u ": " ++ py_repr (snd kv)) d)
      ++ u "}"
  end.

(** [str(x)] *)
Definition py_str (x : value) : pystr :=
  match x with
  | VStr s => s
  | _ => py_repr x
  end.

Definition _clean_text (x : value) : pystr :=
  let s := match x with VNone => [] | _ => py_str x end in
  (* collapse whitespace *)
  strip (sub_ws false s).

(** The body of the loop over the decoded array: the dict appended to
    [out] for one [item], or the exception the body raises. *)
Definition parse_item (item : value) : res dict :=
  fields ← (if isinstance_dict item
            then get item (u "fields") (VDict [])
            else Ok (VDict []));
  action ← get fields (u "Action") (VStr []);
  data ← get fields (u "Data") (VStr []);
  expected ← get fields (u "Expected Result") (VStr []);
  index ← get item (u "index") VNone;
  Ok [ (u "Step #", index);
       (u "Action", VStr (_clean_text action));
       (u "Data", VStr (_clean_text data));
       (u "Expected Result", VStr (_clean_text expected)) ].

(** The two decode stages: the strict parse, and on failure the parse
    of the text with every single quote replaced by a double quote. *)
Definition decode (s : pystr) : option value :=
  match Json.loads s with
  | Some arr => Some arr
  | None => Json.loads (replace_char c_squote c_dquote s)
  end.

Definition parse_manual_steps_cell (cell : value) : res (list dict) :=
  match cell with
  | VStr c =>
      if decide (strip c = []) then Ok []
      else
        (* Some exports may include stray whitespace or non-breaking space *)
        let s := replace_char c_nbsp c_space (strip c) in
        match decode s with
        | None => Ok []
        | Some arr =>
            match arr with
            | VList items => for_each parse_item items
            | _ => Ok []
            end
        end
  | _ => Ok []
  end.

End CellParser.

(** ** The Column Resolver *)

Section ColumnResolver.
Context `{PyLib}.

(** Find a column whose name contains [needle] (case-insensitive). *)
Fixpoint find_col_from (needle_low : pystr) (cols : list pystr) : pystr :=
  match cols with
  | [] => []
  | c :: cols' =>
      if contains needle_low (str_lower c) then c
      else find_col_from needle_low cols'
  end.

Definition find_col (cols : list pystr) (needle : pystr) : pystr :=
  let needle_low := str_lower needle in
  find_col_from needle_low cols.

(** [a or b] on two [str]. *)
Definition str_or (a b : pystr) : pystr :=
  match a with
  | [] => b
  | _ => a
  end.

(** Detect columns *)
Definition col_steps (cols : list pystr) : pystr :=
  find_col cols (u "Manual Test Steps").

Definition col_key (cols : list pystr) : pystr :=
  str_or (find_col cols (u "Issue key")) (find_col cols (u "Key")).

Definition col_sum (cols : list pystr) : pystr :=
  find_col cols (u "Summary").

End ColumnResolver.

(** ** Tables *)

#[global] Instance pyfloat_eq_dec : EqDecision pyfloat.
Proof. solve_decision. Defined.

#[global] Instance value_eq_dec : EqDecision value.
Proof.
  refine (fix go (x y : value) {struct x} : Decision (x = y) :=
    match x, y with
    | VNone, VNone => left _
    | VBool a, VBool b => cast_if (decide (a = b))
    | VInt a, VInt b => cast_if (decide (a = b))
    | VFloat a, VFloat b => cast_if (decide (a = b))
    | VStr a, VStr b => cast_if (decide (a = b))
    | VList a, VList b => cast_if (@list_eq_dec _ go a b)
    | VDict a, VDict b => cast_if (@list_eq_dec _ (@prod_eq_dec _ _ _ go) a b)
    | _, _ => right _
    end); congruence.
Defined.

(** A cell of a table read with [dtype=str]: a string, or the missing
    value [NaN]. *)
Inductive cell :=
| NaN
| Str (s : pystr).

Definition cell_value (c : cell) : value :=
  match c with
  | NaN => VFloat FNan
  | Str s => VStr s
  end.

(** The table the program reads.  Every row has one cell per column and
    column names are distinct, as [read_csv] produces them; rows are
    labelled by their position. *)
Record RawFrame := {
  raw_columns : list pystr;
  raw_data : list (list cell)
}.

(** A table of Python values, as [build_flat] makes it. *)
Record DataFrame := {
  columns : list pystr;
  data : list (list value)
}.

(** [pd.isna] and [pd.notna] on one value. *)
Definition isna (v : value) : bool :=
  match v with
  | VNone => true
  | VFloat FNan => true
  | _ => false
  end.

Definition notna (v : value) : bool := negb (isna v).

(** [pd.unique]: the distinct values, in order of first appearance. *)
Fixpoint unique {A : Type} `{EqDecision A} (l : list A) : list A :=
  match l with
  | [] => []
  | x :: l' => x :: filter (fun y => y <> x) (unique l')
  end.

(** The position of a label among the column labels. *)
Fixpoint col_pos (cols : list pystr) (c : pystr) : option nat :=
  match cols with
  | [] => None
  | c' :: cols' => if decide (c' = c) then Some O else S <$> col_pos cols' c
  end.

Definition cell_at (i : nat) (row : list value) : value :=
  default (VFloat FNan) (row !! i).

(** [r.get(col)] on a row of the raw table: [None] for an unknown label. *)
Definition r_get (cols : list pystr) (r : list cell) (col : pystr) : value :=
  match col_pos cols col with
  | Some i => from_option cell_value VNone (r !! i)
  | None => VNone
  end.

(** [pd.DataFrame(rows)] for a list of dicts: the columns are the keys in
    order of first appearance, a key a row lacks gives [NaN].  A cell is
    the Python object that was put in.  Outside the model: the type
    pandas chooses for each column; a column of numbers with a missing
    value is stored as floats, 1 as 1.0 and [None] as [NaN].  In the
    table of [build_flat] this is the column [Step #]; strings, and
    whether a cell is missing, are not changed by it, and the properties
    of that column are stated on these. *)
Definition DataFrame_of (rows : list dict) : DataFrame :=
  let cols := unique (concat ((fun r => r.*1) <$> rows)) in
  {| columns := cols;
     data := (fun r => (fun c => default (VFloat FNan) (dict_get c r)) <$> cols) <$> rows |}.

(** [df[c]] *)
Definition getitem (df : DataFrame) (c : pystr) : res (list value) :=
  match col_pos (columns df) c with
  | Some i => Ok (cell_at i <$> data df)
  | None => Raise KeyError
  end.

(** [df.assign(c=vals)] for a new label [c]. *)
Definition assign (df : DataFrame) (c : pystr) (vals : list value) : DataFrame :=
  {| columns := columns df ++ [c];
     data := zip_with (fun r v => r ++ [v]) (data df) vals |}.

(** [df.insert(0, c, vals)] *)
Definition insert0 (df : DataFrame) (c : pystr) (vals : list value) : DataFrame :=
  {| columns := c :: columns df;
     data := zip_with cons vals (data df) |}.

(** [df.drop(columns=[c], errors="ignore")] *)
Definition drop (df : DataFrame) (c : pystr) : DataFrame :=
  match col_pos (columns df) c with
  | Some i => {| columns := delete i (columns df); data := delete i <$> data df |}
  | None => df
  end.

(** [df[[c1, ..., cn]]] *)
Definition select (df : DataFrame) (cs : list pystr) : res DataFrame :=
  idx ← for_each (fun c => match col_pos (columns df) c with
                           | Some i => Ok i
                           | None => Raise KeyError
                           end) cs;
  Ok {| columns := cs; data := (fun r => List.map (fun i => cell_at i r) idx) <$> data df |}.

(** [pd.Categorical(values, categories=categories)]: the categories must
    hold no missing value and no value twice; a value outside them
    becomes missing. *)
Definition Categorical (values categories : list value) : res (list value) :=
  if forallb notna categories then
    if decide (NoDup categories)
    then Ok ((fun v => if decide (v ∈ categories) then v else VFloat FNan) <$> values)
    else Raise ValueError
  else Raise ValueError.

(** [{k: i + 1 for i, k in enumerate([u for u in uniques if pd.notna(u)])}] *)
Definition case_map (uniques : list value) : list (value * Z) :=
  imap (fun i k => (k, Z.of_nat i + 1)%Z) (filter (fun k => notna k = true) uniques).

Fixpoint map_get (k : value) (m : list (value * Z)) : option Z :=
  match m with
  | [] => None
  | (k', i) :: m' => if decide (k' = k) then Some i else map_get k m'
  end.

(** [series.map(case_map)]: a value that is not a key gives [NaN]. *)
Definition series_map (m : list (value * Z)) (s : list value) : list value :=
  (fun k => match map_get k m with
            | Some i => VInt i
            | None => VFloat FNan
            end) <$> s.

(** [{**base, **s}] *)
Definition dict_update (base s : dict) : dict :=
  fold_left (fun d kv => dict_set kv.1 kv.2 d) s base.

(** ** The Flattener *)

Definition flat_columns : list pystr :=
  [u "Case #"; u "Issue key"; u "Summary"; u "Step #"; u "Action"; u "Data";
   u "Expected Result"].

(** The second half of [build_flat], from the comment "Case # numbering"
    to the end, on the table [flat] made from [rows]. *)
Definition case_numbering (flat : DataFrame) : res DataFrame :=
  (* Case # numbering by first appearance order of Issue key *)
  keys ← getitem flat (u "Issue key");
  order ← Categorical keys (unique keys);
  let flat := assign flat (u "_ord") order in
  keys ← getitem flat (u "Issue key");
  let uniques := unique keys in (* preserves order *)
  keys ← getitem flat (u "Issue key");
  let flat := insert0 flat (u "Case #") (series_map (case_map uniques) keys) in
  let flat := drop flat (u "_ord") in
  (* Ensure consistent column order *)
  select flat flat_columns.

Section Flattener.
Context `{PyLib}.

(** The dicts one row of [df] appends to [rows]. *)
Definition row_dicts (cols : list pystr) (col_steps col_key col_sum : pystr)
    (r : list cell) : res (list dict) :=
  let key := r_get cols r col_key in
  let summ := r_get cols r col_sum in
  steps ← parse_manual_steps_cell (r_get cols r col_steps);
  match steps with
  | [] =>
      Ok [ [ (u "Issue key", key);
             (u "Summary", summ);
             (u "Step #", VNone);
             (u "Action", VStr []);
             (u "Data", VStr []);
             (u "Expected Result", VStr []) ] ]
  | _ =>
      Ok ((fun s => dict_update [ (u "Issue key", key); (u "Summary", summ) ] s)
            <$> steps)
  end.

(** The list [rows] at the end of the loop over [df.iterrows()]. *)
Definition flat_rows (df : RawFrame) (col_steps col_key col_sum : pystr)
  : res (list dict) :=
  per_row ← for_each (row_dicts (raw_columns df) col_steps col_key col_sum)
                     (raw_data df);
  Ok (concat per_row).

Definition build_flat (df : RawFrame) (col_steps col_key col_sum : pystr)
  : res DataFrame :=
  rows ← flat_rows df col_steps col_key col_sum;
  let flat := DataFrame_of rows in
  case_numbering flat.

End Flattener.

(** ** The Collapse Transform *)

(** The positions, counted from [i], of the rows whose key is [k]. *)
Fixpoint positions_from (i : nat) (k : value) (keys : list value) : list nat :=
  match keys with
  | [] => []
  | x :: keys' =>
      if decide (x = k) then i :: positions_from (S i) k keys'
      else positions_from (S i) k keys'
  end.

(** [df.groupby(c, sort=False).groups] from the values of column [c]: for
    each value that is not missing, in order of first appearance, the
    labels of all the rows that hold it.  Keys are equal when they are
    the same value, which is how pandas compares the strings of the
    column the program groups by. *)
Definition groups (keys : list value) : list (value * list nat) :=
  (fun k => (k, positions_from 0 k keys))
    <$> filter (fun k => notna k = true) (unique keys).

(** One row after [row[cols_to_blank] = ""]. *)
Definition blank_row (cols cols_to_blank : list pystr) (row : list value)
  : list value :=
  imap (fun j x =>
          match cols !! j with
          | Some c => if decide (c ∈ cols_to_blank) then VStr [] else x
          | None => x
          end) row.

(** [out.loc[idx, cols_to_blank] = ""], for labels [cols_to_blank] among
    the columns of [out] and columns that take a string.  Outside the
    model: a label that is not a column, for which pandas adds a column,
    and a column that holds numbers alone, into which pandas 3 refuses to
    write the empty string ([TypeError]) where pandas 2 converts the
    column with a warning.  The properties of [collapse_repeats] are
    stated for labels among the columns and say what the table is when
    the call returns. *)
Definition loc_set_blank (out : DataFrame) (idx : list nat)
    (cols_to_blank : list pystr) : DataFrame :=
  {| columns := columns out;
     data := fold_left (fun d i => alter (blank_row (columns out) cols_to_blank) i d)
               idx (data out) |}.

(** [df.empty] *)
Definition empty (df : DataFrame) : bool :=
  match data df, columns df with
  | [], _ | _, [] => true
  | _, _ => false
  end.

(** The body of the loop over the groups, for the group [g] with its
    row labels [idx]: [if len(idx) > 1: out.loc[idx[1:], cols_to_blank] = ""]. *)
Definition blank_group (cols_to_blank : list pystr) (out : DataFrame)
    (g : value * list nat) : DataFrame :=
  if decide (1 < length g.2)%nat
  then loc_set_blank out (tail g.2) cols_to_blank
  else out.

(** Within each group (e.g., Issue key), blank out repeated cols after the
    first row. *)
Definition collapse_repeats (df : DataFrame) (group_col : pystr)
    (cols_to_blank : list pystr) : DataFrame :=
  if empty df || negb (bool_decide (group_col ∈ columns df)) then df
  else
    match getitem df group_col with
    | Raise _ => df
    | Ok keys => fold_left (blank_group cols_to_blank) (groups keys) df
    end.

(** ** The script *)

(** How a run of the script ends: [st.error] followed by [st.stop], an
    exception nothing catches, or the table that is shown and offered for
    download. *)
Inductive run_result :=
| Stopped (error : pystr)
| Uncaught (e : exn)
| Rendered (flat : DataFrame).

(** The text before the list of labels: Eksik s, u with diaeresis,
    tun(lar), colon, space. *)
Definition missing_prefix : pystr := u "Eksik s" ++ [252] ++ u "tun(lar): ".

Section Script.
Context `{PyLib}.

(** The labels appended to [missing]. *)
Definition missing (cols : list pystr) : list pystr :=
  let missing := [] in
  let missing :=
    if col_steps cols is [] then missing ++ [u "Manual Test Steps"] else missing in
  let missing :=
    if col_key cols is [] then missing ++ [u "Issue key"] else missing in
  let missing :=
    if col_sum cols is [] then missing ++ [u "Summary"] else missing in
  missing.

(** The script from the column detection on, for the table [df_raw]
    that was read and the state of the checkbox.  [flatten] is the
    function called at "Build flat table".  The collapse is the table
    [collapse_repeats] returns; outside the model is the run in which it
    does not return: when no record has a summary the column "Summary"
    holds missing values alone, it is stored as numbers, and pandas 3
    refuses to blank it ([TypeError]).  What is proved of a run with the
    box ticked is stated for a column "Summary" that holds a string. *)
Definition script
    (flatten : RawFrame -> pystr -> pystr -> pystr -> res DataFrame)
    (df_raw : RawFrame) (collapse_opt : bool) : run_result :=
  let cols := raw_columns df_raw in
  match missing cols with
  | _ :: _ => Stopped (missing_prefix ++ join (u ", ") (missing cols))
  | [] =>
      match flatten df_raw (col_steps cols) (col_key cols) (col_sum cols) with
      | Raise e => Uncaught e
      | Ok flat =>
          Rendered
            (if collapse_opt
             then collapse_repeats flat (u "Issue key") [u "Issue key"; u "Summary"]
             else flat)
      end
  end.

Definition main : RawFrame -> bool -> run_result := script build_flat.

End Script.

(** ** Notions the properties are stated with *)

(** [n] occurs in [h] as a substring. *)
Definition substring (n h : pystr) : Prop := exists a b, h = a ++ n ++ b.

(** Every character is whitespace (in particular, the empty string). *)
Definition whitespace_only (c : pystr) : Prop := Forall (fun x => isspace x = true) c.

(** The text the decoder is given for the cell text [c]. *)
Definition normalized (c : pystr) : pystr := replace_char c_nbsp c_space (strip c).

(** The cells the parser has no steps for: anything that is not a string,
    a string of whitespace only, a text that neither decode stage
    accepts. *)
Inductive stepless : value -> Prop :=
| stepless_absent cell : (forall c, cell <> VStr c) -> stepless cell
| stepless_blank c : whitespace_only c -> stepless (VStr c)
| stepless_undecodable c :
    Json.loads (normalized c) = None ->
    Json.loads (replace_char c_squote c_dquote (normalized c)) = None ->
    stepless (VStr c).

Section Notions.
Context `{PyLib}.

(** Column [c] matches the label [needle]. *)
Definition matches (needle c : pystr) : Prop :=
  substring (str_lower needle) (str_lower c).

(** What a label resolves to among [cols]: the first column, in order,
    that matches it, or nothing when no column does. *)
Inductive resolves (needle : pystr) : list pystr -> option pystr -> Prop :=
| resolves_none cols :
    (forall c, c ∈ cols -> ~ matches needle c) -> resolves needle cols None
| resolves_first pre c post :
    (forall x, x ∈ pre -> ~ matches needle x) -> matches needle c ->
    resolves needle (pre ++ c :: post) (Some c).

(** A label the column check reports: no column matches it, nor, for
    the key, the fallback label. *)
Definition unresolved (cols : list pystr) (label : pystr) : Prop :=
  Forall (fun c => ~ matches label c) cols
  /\ (label = u "Issue key" -> Forall (fun c => ~ matches (u "Key") c) cols).

End Notions.

(** The keys of a step dict, and of a dict of [rows]. *)
Definition step_keys : list pystr :=
  [u "Step #"; u "Action"; u "Data"; u "Expected Result"].

Definition row_keys : list pystr := u "Issue key" :: u "Summary" :: step_keys.

(** The number of steps of each record of a table, when no cell makes
    the parser raise. *)
Definition step_counts `{PyLib} (df : RawFrame) (col_steps : pystr)
  : res (list nat) :=
  for_each (fun r => steps ← parse_manual_steps_cell
                               (r_get (raw_columns df) r col_steps);
                     Ok (length steps))
           (raw_data df).

(** The row at position [i] repeats a key: its key is not missing and
    some earlier row has the same key. *)
Definition repeats (keys : list value) (i : nat) : bool :=
  match keys !! i with
  | Some k => notna k && bool_decide (k ∈ take i keys)
  | None => false
  end.

(** Column [j] is one of the columns to blank. *)
Definition to_blank (cols cols_to_blank : list pystr) (j : nat) : bool :=
  match cols !! j with
  | Some c => bool_decide (c ∈ cols_to_blank)
  | None => false
  end.



(** ** Notions for the further properties *)

(** Whitespace occurs in [s] only as single ASCII spaces: a whitespace
    character is the space, and the character after it, if any, is not
    whitespace. *)
Fixpoint single_spaced (s : pystr) : Prop :=
  match s with
  | [] => True
  | c :: s' =>
      (isspace c = true ->
       c = c_space /\ match s' with
                      | [] => True
                      | d :: _ => isspace d = false
                      end)
      /\ single_spaced s'
  end.

(** [s] neither starts nor ends with whitespace. *)
Definition trimmed (s : pystr) : Prop :=
  (forall c, head s = Some c -> isspace c = false)
  /\ (forall c, last s = Some c -> isspace c = false).

(** A cell that holds a cleaned text. *)
Definition clean_cell (v : value) : Prop :=
  exists s, v = VStr s /\ single_spaced s /\ trimmed s.

(** A row of the flat table after its case number: the three texts are
    cleaned texts. *)
Definition clean_row (t : list value) : Prop :=
  exists key summ n a d e,
    t = [key; summ; n; a; d; e] /\ clean_cell a /\ clean_cell d /\ clean_cell e.

(** The characters of [s] that are not whitespace. *)
Definition non_space (s : pystr) : pystr := filter (fun c => isspace c = false) s.

Section FurtherNotions.
Context `{PyLib}.

(** An array element the parser has a step for: an object whose
    [fields], when present, is an object. *)
Definition well_shaped (item : value) : Prop :=
  exists d, item = VDict d
            /\ forall f, dict_get (u "fields") d = Some f -> exists fd, f = VDict fd.

(** The step of such an element: its [index], or [None], and the cleaned
    texts of the three fields, each the empty string when absent. *)
Definition step_of (item : value) : dict :=
  match item with
  | VDict d =>
      let fields := match dict_get (u "fields") d with
                    | Some (VDict fd) => fd
                    | _ => []
                    end in
      let text k := VStr (_clean_text (default (VStr []) (dict_get k fields))) in
      [ (u "Step #", default VNone (dict_get (u "index") d));
        (u "Action", text (u "Action"));
        (u "Data", text (u "Data"));
        (u "Expected Result", text (u "Expected Result")) ]
  | _ => []
  end.

End FurtherNotions.

(** The rows one record contributes to the flat table, without their
    case number: one per step, or one with no step; each starts with the
    key and the summary of the record. *)
Definition record_rows (key summ : value) (steps : list dict) : list (list value) :=
  match steps with
  | [] => [[key; summ; VNone; VStr []; VStr []; VStr []]]
  | _ => (fun s => key :: summ :: s.*2) <$> steps
  end.

(** The key column after [collapse_repeats] on the table with key column
    [keys]: the key of a row that repeats an earlier key is blanked when
    the group column is one of the columns to blank. *)
Definition collapsed_keys (blank_keys : bool) (keys : list value) : list value :=
  imap (fun i k => if repeats keys i && blank_keys then VStr [] else k) keys.

(** The two metrics of the page.  [s.replace("", pd.NA)], where [None]
    stands for the missing value [pd.NA]; [s.nunique()], which leaves
    missing values out; [s.notna().sum()]. *)
Definition replace_empty_na (s : list value) : list value :=
  (fun v => if decide (v = VStr []) then VNone else v) <$> s.

Definition nunique (s : list value) : nat :=
  length (unique (filter (fun v => notna v = true) s)).

Definition count_notna (s : list value) : nat :=
  length (filter (fun v => notna v = true) s).

(** [flat["Issue key"].replace("", pd.NA).nunique()], shown as "Toplam
    Case". *)
Definition total_case (flat : DataFrame) : res nat :=
  keys ← getitem flat (u "Issue key");
  Ok (nunique (replace_empty_na keys)).

(** [(flat["Step #"].notna()).sum()], shown as "Toplam Step". *)
Definition total_step (flat : DataFrame) : res nat :=
  steps ← getitem flat (u "Step #");
  Ok (count_notna steps).

(** What the flat table keeps of a row [row] of [record_rows] in the row
    [stored]: the key, the summary and the three texts as they are, and
    of the step number whether it is missing.  (The column of step
    numbers is stored with the type pandas chooses for it, as floats when
    a number and a missing value occur in it.) *)
Definition kept_as (row stored : list value) : Prop :=
  length stored = length row
  /\ (forall j, j <> 2%nat -> stored !! j = row !! j)
  /\ isna (cell_at 2 stored) = isna (cell_at 2 row).

(** Column [c] of [df] holds a string: it is not a column of numbers and
    missing values alone, and the empty string can be written into it. *)
Definition holds_text (df : DataFrame) (c : pystr) : Prop :=
  exists cells s, getitem df c = Ok cells /\ VStr s ∈ cells.

(** The steps of [steps] that "Toplam Step" counts: those whose step
    number is not missing. *)
Definition numbered_steps (steps : list dict) : nat :=
  length (filter (fun s => notna (default VNone (dict_get (u "Step #") s)) = true) steps).

(** * Properties *)

(** ** Strings *)

Lemma lstrip_whitespace_only (c : pystr) : whitespace_only c -> lstrip c = [].
Proof.
  induction 1 as [|x c Hx _ IH]; simpl; [reflexivity|].
  rewrite Hx. exact IH.
Qed.

Lemma strip_whitespace_only (c : pystr) : whitespace_only c -> strip c = [].
Proof.
  intros Hc. unfold strip, rstrip.
  rewrite (lstrip_whitespace_only c Hc). reflexivity.
Qed.

Lemma starts_with_prefix (p s : pystr) :
  starts_with p s = true <-> exists b, s = p ++ b.
Proof.
  revert s. induction p as [|a p IH]; intros s; simpl.
  - split; [intros _; exists s; reflexivity | reflexivity].
  - destruct s as [|b s].
    + split; [discriminate | intros [t Ht]; discriminate Ht].
    + rewrite andb_true_iff, N.eqb_eq, IH. split.
      * intros [-> [t ->]]. exists t. reflexivity.
      * intros [t Ht]. injection Ht as -> ->. split; [reflexivity | exists t; reflexivity].
Qed.

Lemma contains_substring (n h : pystr) : contains n h = true <-> substring n h.
Proof.
  induction h as [|x h IH].
  - simpl. rewrite orb_false_r, starts_with_prefix. split.
    + intros [b Hb]. exists [], b. exact Hb.
    + intros [a [b Hab]]. destruct a as [|y a]; [exists b; exact Hab | discriminate Hab].
  - cbn [contains]. rewrite orb_true_iff, starts_with_prefix, IH. split.
    + intros [[b Hb] | [a [b Hab]]].
      * exists [], b. exact Hb.
      * exists (x :: a), b. rewrite Hab. reflexivity.
    + intros [a [b Hab]]. destruct a as [|y a].
      * left. exists b. exact Hab.
      * right. injection Hab as _ Hab. exists a, b. exact Hab.
Qed.

Lemma substring_nonempty (n h : pystr) : substring n h -> n <> [] -> h <> [].
Proof.
  intros [a [b ->]] Hn E. apply app_eq_nil in E as [_ E].
  apply app_eq_nil in E as [E _]. exact (Hn E).
Qed.

#[global] Instance substring_dec (n h : pystr) : Decision (substring n h).
Proof.
  destruct (contains n h) eqn:E.
  - left. apply contains_substring. exact E.
  - right. intros Hs. apply contains_substring in Hs. congruence.
Defined.

(** ** [json.loads]: the fuel *)

Module JsonFuel.
Import Json.

Lemma skip_ws_length (s : pystr) : (length (skip_ws s) <= length s)%nat.
Proof.
  induction s as [|c s IH]; simpl; [lia|].
  destruct (ws c); simpl; lia.
Qed.

Lemma after_prefix_length (p s r : pystr) :
  after_prefix p s = Some r -> (length r + length p = length s)%nat.
Proof.
  revert s. induction p as [|a p IH]; intros [|b s]; simpl; intros E;
    try discriminate E.
  - injection E as <-. reflexivity.
  - injection E as <-. simpl. lia.
  - destruct (a =? b); [|discriminate E]. apply IH in E. lia.
Qed.

Lemma span_digits_length (s ds r : pystr) :
  span_digits s = (ds, r) -> (length ds + length r = length s)%nat.
Proof.
  revert ds r. induction s as [|c s IH]; intros ds r; simpl.
  - intros E. injection E as <- <-. reflexivity.
  - destruct (is_digit c).
    + destruct (span_digits s) as [ds' r'] eqn:Es. intros E. injection E as <- <-.
      specialize (IH ds' r' eq_refl). simpl. lia.
    + intros E. injection E as <- <-. reflexivity.
Qed.

(** A string literal ends before the end of the text it starts in. *)
Lemma scanstring_length (s str r : pystr) :
  scanstring s = Some (str, r) -> (length r < length s)%nat.
Proof.
  remember (length s) as n eqn:Hn. revert s str r Hn.
  induction n as [n IH] using lt_wf_ind. intros s str r -> E.
  assert (Hrec : forall t str' r', (length t < length s)%nat ->
                   scanstring t = Some (str', r') -> (length r' < length s)%nat).
  { intros t str' r' Ht Et. specialize (IH _ Ht t str' r' eq_refl Et). lia. }
  destruct s as [|c s']; [discriminate E|]. simpl in E.
  destruct (c =? c_dquote); [injection E as _ <-; simpl; lia|].
  destruct (c =? c_backslash).
  - destruct s' as [|e s'']; [discriminate E|].
    destruct (e =? ch "u").
    + destruct s'' as [|h1 [|h2 [|h3 [|h4 t]]]]; try (simpl in E; discriminate E).
      destruct (hex4 h1 h2 h3 h4) as [uni|]; [|discriminate E].
      assert (Hlone : forall res,
                 match scanstring t with
                 | Some (str0, r0) => Some (uni :: str0, r0)
                 | None => None
                 end = Some res -> (length res.2 < length (c :: e :: h1 :: h2 :: h3 :: h4 :: t))%nat).
      { intros [str0 r0]. destruct (scanstring t) as [[str1 r1]|] eqn:Et; [|discriminate].
        intros E0. injection E0 as _ <-. apply (Hrec t str1 r1); [simpl; lia | exact Et]. }
      destruct (high_surrogate uni); [|exact (Hlone _ E)].
      destruct t as [|b [|v [|g1 [|g2 [|g3 [|g4 t2]]]]]]; try exact (Hlone _ E).
      destruct ((b =? c_backslash) && (v =? ch "u")); [|exact (Hlone _ E)].
      destruct (hex4 g1 g2 g3 g4) as [uni2|]; [|discriminate E].
      destruct (low_surrogate uni2); [|exact (Hlone _ E)].
      destruct (scanstring t2) as [[str1 r1]|] eqn:Et; [|discriminate E].
      injection E as _ <-. apply (Hrec t2 str1 r1); [simpl; lia | exact Et].
    + destruct (escape e); [|discriminate E].
      destruct (scanstring s'') as [[str1 r1]|] eqn:Et; [|discriminate E].
      injection E as _ <-. apply (Hrec s'' str1 r1); [simpl; lia | exact Et].
  - destruct (c <? 32); [discriminate E|].
    destruct (scanstring s') as [[str1 r1]|] eqn:Et; [|discriminate E].
    injection E as _ <-. apply (Hrec s' str1 r1); [simpl; lia | exact Et].
Qed.


(** A number takes at least one character. *)
Lemma scan_number_length (s : pystr) (v : value) (r : pystr) :
  scan_number s = Some (v, r) -> (length r < length s)%nat.
Proof.
  unfold scan_number.
  destruct (match s with
            | c :: t => if c =? ch "-" then ([c], t) else ([], s)
            | [] => ([], s)
            end) as [sign s1] eqn:Es.
  assert (Hs1 : (length s1 <= length s)%nat).
  { destruct s as [|c t]; [injection Es as _ <-; lia|].
    destruct (c =? ch "-"); injection Es as _ <-; simpl; lia. }
  destruct s1 as [|d t]; [discriminate|].
  destruct (is_digit d) eqn:Hd; [|discriminate].
  destruct (if d =? ch "0" then ([d], t) else span_digits (d :: t)) as [ip r0] eqn:Eip.
  assert (Hr0 : (length r0 <= length t)%nat).
  { destruct (d =? ch "0"); [injection Eip as _ <-; lia|].
    simpl in Eip. rewrite Hd in Eip.
    destruct (span_digits t) as [ds' r'] eqn:Et. injection Eip as _ <-.
    apply span_digits_length in Et. lia. }
  destruct (match r0 with
            | dot :: r' =>
                if dot =? ch "." then
                  match span_digits r' with
                  | ([], _) => ([], r0)
                  | (ds, r'') => (dot :: ds, r'')
                  end
                else ([], r0)
            | [] => ([], r0)
            end) as [fp r1] eqn:Efp.
  assert (Hr1 : (length r1 <= length r0)%nat).
  { destruct r0 as [|dot r']; [injection Efp as _ <-; lia|].
    destruct (dot =? ch "."); [|injection Efp as _ <-; lia].
    destruct (span_digits r') as [[|x ds] r''] eqn:Er'; injection Efp as _ <-; [lia|].
    apply span_digits_length in Er'. simpl in *. lia. }
  destruct (match r1 with
            | e :: r' =>
                if (e =? ch "e") || (e =? ch "E") then
                  let '(sg, r'') :=
                    match r' with
                    | c :: t' =>
                        if (c =? ch "+") || (c =? ch "-") then ([c], t') else ([], r')
                    | [] => ([], r')
                    end in
                  match span_digits r'' with
                  | ([], _) => ([], r1)
                  | (ds, r3) => (e :: sg ++ ds, r3)
                  end
                else ([], r1)
            | [] => ([], r1)
            end) as [ep r2] eqn:Eep.
  assert (Hr2 : (length r2 <= length r1)%nat).
  { destruct r1 as [|e r']; [injection Eep as _ <-; lia|].
    destruct ((e =? ch "e") || (e =? ch "E")); [|injection Eep as _ <-; lia].
    destruct (match r' with
              | c :: t' =>
                  if (c =? ch "+") || (c =? ch "-") then ([c], t') else ([], r')
              | [] => ([], r')
              end) as [sg r''] eqn:Esg.
    assert (Hsg : (length r'' <= length r')%nat).
    { destruct r' as [|c t']; [injection Esg as _ <-; lia|].
      destruct ((c =? ch "+") || (c =? ch "-")); injection Esg as _ <-; simpl; lia. }
    destruct (span_digits r'') as [[|x ds] r3] eqn:Er3; injection Eep as _ <-; [lia|].
    apply span_digits_length in Er3. simpl in *. lia. }
  intros E. assert (r = r2) as ->.
  { destruct fp, ep; injection E as _ <-; reflexivity. }
  simpl in Hs1. lia.
Qed.


#[local] Arguments after_prefix : simpl never.
#[local] Arguments scan_number : simpl never.
#[local] Arguments scanstring : simpl never.
#[local] Arguments skip_ws : simpl never.

Lemma after_prefix_shorter (p s r : pystr) :
  p <> [] -> after_prefix p s = Some r -> (length r < length s)%nat.
Proof.
  intros Hp E. apply after_prefix_length in E.
  destruct p; [contradiction | simpl in E; lia].
Qed.

(** What follows a scanned value, array or object is shorter than the
    text it was scanned from. *)
Lemma scan_rest (n : nat) :
  (forall s v r, scan_once n s = Some (v, r) -> (length r < length s)%nat)
  /\ (forall s vs r, array_items n s = Some (vs, r) -> (length r < length s)%nat)
  /\ (forall s ps r, object_pairs n s = Some (ps, r) -> (length r < length s)%nat).
Proof.
  induction n as [|n (IHv & IHa & IHo)];
    [repeat split; intros; discriminate|].
  split; [|split].
  - intros s v r E. simpl in E.
    destruct s as [|c t]; [discriminate E|].
    destruct (c =? c_dquote).
    { destruct (scanstring t) as [[str r0]|] eqn:Et; [|discriminate E].
      injection E as _ <-. apply scanstring_length in Et. simpl. lia. }
    destruct (c =? ch "{").
    { pose proof (skip_ws_length t) as Hw.
      destruct (skip_ws t) as [|c' r0]; [discriminate E|].
      destruct (c' =? ch "}"); [injection E as _ <-; simpl in *; lia|].
      destruct (object_pairs n (c' :: r0)) as [[ps r1]|] eqn:Eo; [|discriminate E].
      injection E as _ <-. apply IHo in Eo. simpl in *. lia. }
    destruct (c =? ch "[").
    { pose proof (skip_ws_length t) as Hw.
      destruct (skip_ws t) as [|c' r0]; [discriminate E|].
      destruct (c' =? ch "]"); [injection E as _ <-; simpl in *; lia|].
      destruct (array_items n (c' :: r0)) as [[vs r1]|] eqn:Ea; [|discriminate E].
      injection E as _ <-. apply IHa in Ea. simpl in *. lia. }
    repeat match type of E with
           | match after_prefix ?p ?x with _ => _ end = _ =>
               let Ep := fresh "Ep" in
               destruct (after_prefix p x) as [?|] eqn:Ep;
               [injection E as _ <-;
                apply after_prefix_shorter in Ep; [exact Ep | discriminate]|]
           | match scan_number ?x with _ => _ end = _ =>
               let En := fresh "En" in
               destruct (scan_number x) as [[? ?]|] eqn:En;
               [injection E as _ <-; apply scan_number_length in En; exact En|]
           end.
    discriminate E.
  - intros s vs r E. simpl in E.
    destruct (scan_once n s) as [[v r0]|] eqn:Ev; [|discriminate E].
    apply IHv in Ev. pose proof (skip_ws_length r0) as Hw.
    destruct (skip_ws r0) as [|c r']; [discriminate E|].
    destruct (c =? ch "]"); [injection E as _ <-; simpl in *; lia|].
    destruct (c =? ch ","); [|discriminate E].
    destruct (array_items n (skip_ws r')) as [[vs' r'']|] eqn:Ea; [|discriminate E].
    injection E as _ <-. apply IHa in Ea.
    pose proof (skip_ws_length r'). simpl in *. lia.
  - intros s ps r E. simpl in E.
    destruct s as [|c t]; [discriminate E|].
    destruct (c =? c_dquote); [|discriminate E].
    destruct (scanstring t) as [[k r0]|] eqn:Et; [|discriminate E].
    apply scanstring_length in Et. pose proof (skip_ws_length r0) as Hw0.
    destruct (skip_ws r0) as [|c1 r1]; [discriminate E|].
    destruct (c1 =? ch ":"); [|discriminate E].
    destruct (scan_once n (skip_ws r1)) as [[v r2]|] eqn:Ev; [|discriminate E].
    apply IHv in Ev. pose proof (skip_ws_length r1) as Hw1.
    pose proof (skip_ws_length r2) as Hw2.
    destruct (skip_ws r2) as [|c2 r3]; [discriminate E|].
    destruct (c2 =? ch "}"); [injection E as _ <-; simpl in *; lia|].
    destruct (c2 =? ch ","); [|discriminate E].
    destruct (object_pairs n (skip_ws r3)) as [[ps' r4]|] eqn:Eo; [|discriminate E].
    injection E as _ <-. apply IHo in Eo.
    pose proof (skip_ws_length r3). simpl in *. lia.
Qed.


(** With fuel for the length of the text, more fuel changes nothing. *)
Lemma scan_stable (n : nat) :
  (forall m s, (2 * length s <= n)%nat -> (n <= m)%nat ->
               scan_once n s = scan_once m s)
  /\ (forall m s, (2 * length s + 1 <= n)%nat -> (n <= m)%nat ->
                  array_items n s = array_items m s)
  /\ (forall m s, (2 * length s + 1 <= n)%nat -> (n <= m)%nat ->
                  object_pairs n s = object_pairs m s).
Proof.
  induction n as [|n (IHv & IHa & IHo)].
  - split; [|split; intros m s Hs; exfalso; lia].
    intros m [|c t] Hs _; [destruct m; reflexivity | simpl in Hs; lia].
  - split; [|split]; intros [|m] s Hs Hm; try lia.
    + simpl. destruct s as [|c t]; [reflexivity|].
      simpl in Hs. pose proof (skip_ws_length t) as Hw.
      destruct (c =? c_dquote); [reflexivity|].
      destruct (c =? ch "{").
      { destruct (skip_ws t) as [|c' r0]; [reflexivity|].
        destruct (c' =? ch "}"); [reflexivity|].
        rewrite (IHo m (c' :: r0)) by lia. reflexivity. }
      destruct (c =? ch "[").
      { destruct (skip_ws t) as [|c' r0]; [reflexivity|].
        destruct (c' =? ch "]"); [reflexivity|].
        rewrite (IHa m (c' :: r0)) by lia. reflexivity. }
      reflexivity.
    + simpl. rewrite (IHv m s) by lia.
      destruct (scan_once m s) as [[v r0]|] eqn:Ev; [|reflexivity].
      apply (proj1 (scan_rest m)) in Ev. pose proof (skip_ws_length r0) as Hw.
      destruct (skip_ws r0) as [|c r']; [reflexivity|].
      destruct (c =? ch "]"); [reflexivity|].
      destruct (c =? ch ","); [|reflexivity].
      pose proof (skip_ws_length r') as Hw'. simpl in Hw.
      rewrite (IHa m (skip_ws r')) by lia. reflexivity.
    + simpl. destruct s as [|c t]; [reflexivity|].
      simpl in Hs.
      destruct (c =? c_dquote); [|reflexivity].
      destruct (scanstring t) as [[k r0]|] eqn:Et; [|reflexivity].
      apply scanstring_length in Et. pose proof (skip_ws_length r0) as Hw0.
      destruct (skip_ws r0) as [|c1 r1]; [reflexivity|].
      destruct (c1 =? ch ":"); [|reflexivity].
      pose proof (skip_ws_length r1) as Hw1. simpl in Hw0.
      rewrite (IHv m (skip_ws r1)) by lia.
      destruct (scan_once m (skip_ws r1)) as [[v r2]|] eqn:Ev; [|reflexivity].
      apply (proj1 (scan_rest m)) in Ev. pose proof (skip_ws_length r2) as Hw2.
      destruct (skip_ws r2) as [|c2 r3]; [reflexivity|].
      destruct (c2 =? ch "}"); [reflexivity|].
      destruct (c2 =? ch ","); [|reflexivity].
      pose proof (skip_ws_length r3) as Hw3. simpl in Hw2.
      rewrite (IHo m (skip_ws r3)) by lia. reflexivity.
Qed.

(** The fuel [loads] gives the scanner is enough for every text: the
    result is the same with any larger amount, so that [None] always
    stands for a text the grammar rejects. *)
Theorem loads_any_fuel (s : pystr) (m : nat) :
  (S (2 * length s) <= m)%nat ->
  loads s
  = match s with
    | 65279 :: _ => None
    | _ =>
        match scan_once m (skip_ws s) with
        | Some (v, r) => if skip_ws r is [] then Some v else None
        | None => None
        end
    end.
Proof.
  intros Hm. unfold loads.
  pose proof (skip_ws_length s) as Hw.
  rewrite (proj1 (scan_stable (S (2 * length s))) m (skip_ws s)) by lia.
  reflexivity.
Qed.

End JsonFuel.

(** ** The Cell Parser *)

Section CellParserProperties.
Context `{PyLib}.

Lemma get_not_dict (obj : value) (k : pystr) (dflt : value) :
  isinstance_dict obj = false -> get obj k dflt = Raise AttributeError.
Proof. destruct obj; simpl; intros E; try reflexivity; discriminate E. Qed.

(** The guard of the loop body covers [fields] only: for an item that
    is not a dict the lookup of [index] raises. *)
Lemma parse_item_not_dict (item : value) :
  isinstance_dict item = false -> parse_item item = Raise AttributeError.
Proof.
  intros E. unfold parse_item. rewrite E. cbn.
  rewrite (get_not_dict item _ _ E). reflexivity.
Qed.

(** An item that is a dict whose [fields] is absent or a dict gives its
    step. *)
Lemma parse_item_dict (d : dict) :
  (forall f, dict_get (u "fields") d = Some f -> isinstance_dict f = true) ->
  exists s, parse_item (VDict d) = Ok s.
Proof.
  intros Hf. unfold parse_item. cbn.
  destruct (dict_get (u "fields") d) as [f|] eqn:E; cbn.
  - specialize (Hf f eq_refl). destruct f; try discriminate Hf. cbn. eauto.
  - eauto.
Qed.

(** C1, at the cell [[1]]: the text decodes, strictly, to an array of
    one element that is not an object, and the parser raises
    [AttributeError] where the specification has it return one step
    with empty action, data and expected result. *)
Theorem non_object_element_raises :
  Json.loads (u "[1]") = Some (VList [VInt 1])
  /\ parse_manual_steps_cell (VStr (u "[1]")) = Raise AttributeError.
Proof. split; vm_compute; reflexivity. Qed.

(** C2: a cell that is absent (not a string), empty or whitespace-only,
    or whose text fails the strict parse and the single-quote retry,
    gives the empty list of steps, and no exception. *)
Theorem stepless_cell_gives_no_steps (cell : value) :
  stepless cell -> parse_manual_steps_cell cell = Ok [].
Proof.
  intros [c Hc | c Hc | c Hstrict Hrelaxed].
  - destruct c as [| | | |s| |]; try reflexivity. exfalso. exact (Hc s eq_refl).
  - unfold parse_manual_steps_cell.
    rewrite (strip_whitespace_only c Hc). reflexivity.
  - unfold parse_manual_steps_cell. destruct (decide (strip c = [])); [reflexivity|].
    fold (normalized c). unfold decode. rewrite Hstrict, Hrelaxed. reflexivity.
Qed.

(** C3: the single-quoted cell is rejected by the strict parse,
    accepted by the retry with double quotes, and gives one step with
    number 2, action A, empty data and empty expected result. *)
Theorem single_quoted_cell_parses :
  let cell := u "[{'index':2,'fields':{'Action':'A'}}]" in
  Json.loads (normalized cell) = None
  /\ Json.loads (replace_char c_squote c_dquote (normalized cell))
     = Some (VList [VDict [(u "index", VInt 2);
                           (u "fields", VDict [(u "Action", VStr (u "A"))])]])
  /\ parse_manual_steps_cell (VStr cell)
     = Ok [[(u "Step #", VInt 2); (u "Action", VStr (u "A"));
            (u "Data", VStr []); (u "Expected Result", VStr [])]].
Proof. repeat split; vm_compute; reflexivity. Qed.

(** C10: a cell whose text decodes, at either stage, to a value that is
    not an array gives the empty list of steps. *)
Theorem non_array_gives_no_steps (c : pystr) (v : value) :
  decode (normalized c) = Some v ->
  (forall items, v <> VList items) ->
  parse_manual_steps_cell (VStr c) = Ok [].
Proof.
  intros Hv Hna. unfold parse_manual_steps_cell.
  destruct (decide (strip c = [])); [reflexivity|].
  fold (normalized c). rewrite Hv.
  destruct v as [| | | | |l|]; try reflexivity. exfalso. exact (Hna l eq_refl).
Qed.

End CellParserProperties.

Lemma stepless_cell_gives_no_steps_witness :
  (stepless VNone /\ parse_manual_steps_cell (H := ascii_lib) VNone = Ok [])
  /\ (stepless (VFloat FNan)
      /\ parse_manual_steps_cell (H := ascii_lib) (VFloat FNan) = Ok [])
  /\ (stepless (VStr []) /\ parse_manual_steps_cell (H := ascii_lib) (VStr []) = Ok [])
  /\ (stepless (VStr [c_space; 10; c_nbsp])
      /\ parse_manual_steps_cell (H := ascii_lib) (VStr [c_space; 10; c_nbsp]) = Ok [])
  /\ (stepless (VStr (u "not json"))
      /\ parse_manual_steps_cell (H := ascii_lib) (VStr (u "not json")) = Ok []).
Proof.
  assert (Ha : stepless VNone) by (apply stepless_absent; discriminate).
  assert (Hn : stepless (VFloat FNan)) by (apply stepless_absent; discriminate).
  assert (He : stepless (VStr [])) by (apply stepless_blank; constructor).
  assert (Hw : stepless (VStr [c_space; 10; c_nbsp])).
  { apply stepless_blank. repeat constructor. }
  assert (Hg : stepless (VStr (u "not json"))).
  { apply stepless_undecodable; vm_compute; reflexivity. }
  pose proof (stepless_cell_gives_no_steps (H := ascii_lib)) as Hnone.
  exact (conj (conj Ha (Hnone _ Ha))
           (conj (conj Hn (Hnone _ Hn))
              (conj (conj He (Hnone _ He))
                 (conj (conj Hw (Hnone _ Hw)) (conj Hg (Hnone _ Hg)))))).
Defined.

Lemma non_array_gives_no_steps_witness :
  decode (normalized (u " {'index': 1} ")) = Some (VDict [(u "index", VInt 1)])
  /\ parse_manual_steps_cell (H := ascii_lib) (VStr (u " {'index': 1} ")) = Ok [].
Proof.
  split; [vm_compute; reflexivity|].
  apply (non_array_gives_no_steps (H := ascii_lib) _ (VDict [(u "index", VInt 1)]));
    [vm_compute; reflexivity | discriminate].
Defined.

(** ** The Column Resolver *)

Section ColumnResolverProperties.
Context `{PyLib}.

#[global] Instance matches_dec (needle c : pystr) : Decision (matches needle c).
Proof. unfold matches. apply _. Defined.

#[global] Instance unresolved_dec (cols : list pystr) (label : pystr) :
  Decision (unresolved cols label).
Proof. unfold unresolved. apply _. Defined.

Lemma find_col_resolves (cols : list pystr) (needle : pystr) :
  exists r, resolves needle cols r /\ find_col cols needle = default [] r.
Proof.
  unfold find_col. induction cols as [|c cols [r [Hr E]]].
  - exists None. split; [|reflexivity].
    constructor. intros c Hc. inversion Hc.
  - simpl. destruct (contains (str_lower needle) (str_lower c)) eqn:Hc.
    + exists (Some c). split; [|reflexivity].
      apply (resolves_first needle [] c cols).
      * intros x Hx. inversion Hx.
      * apply contains_substring. exact Hc.
    + assert (Hn : ~ matches needle c).
      { intros Hm. apply contains_substring in Hm. congruence. }
      exists r. split; [|exact E].
      destruct Hr as [cols Hnone | pre c' post Hpre Hc'].
      * constructor. intros x Hx. apply elem_of_cons in Hx as [-> | Hx]; auto.
      * apply (resolves_first needle (c :: pre) c' post); [|exact Hc'].
        intros x Hx. apply elem_of_cons in Hx as [-> | Hx]; auto.
Qed.

(** A column that matches a non-empty label has a non-empty name, so
    the empty string stands for nothing but "unresolved". *)
Lemma matches_nonempty (needle c : pystr) :
  needle <> [] -> matches needle c -> c <> [].
Proof.
  intros Hn Hm Hc. subst c.
  apply (substring_nonempty _ _ Hm).
  - intros E. exact (Hn (proj1 (str_lower_empty needle) E)).
  - exact (proj2 (str_lower_empty []) eq_refl).
Qed.

Lemma resolves_some_nonempty (needle : pystr) (cols : list pystr) (c : pystr) :
  needle <> [] -> resolves needle cols (Some c) -> c <> [].
Proof.
  intros Hn Hr. inversion Hr; subst. eapply matches_nonempty; eassumption.
Qed.

Lemma find_col_empty (cols : list pystr) (needle : pystr) :
  needle <> [] ->
  find_col cols needle = [] <-> Forall (fun c => ~ matches needle c) cols.
Proof.
  intros Hn. destruct (find_col_resolves cols needle) as [r [Hr E]].
  rewrite E. destruct Hr as [cols Hnone | pre c post Hpre Hc]; simpl.
  - split; [intros _ | reflexivity]. apply Forall_forall. exact Hnone.
  - split.
    + intros Ec. exfalso. exact (matches_nonempty needle c Hn Hc Ec).
    + intros Hall. exfalso.
      rewrite Forall_forall in Hall. apply (Hall c); [|exact Hc].
      apply elem_of_app. right. apply elem_of_cons. left. reflexivity.
Qed.

(** C6: each label resolves to the first column, in table order, whose
    lowercased name has the lowercased label as a substring, and to the
    empty string, which is no column that matches, when there is none;
    the key column is what "Issue key" resolves to and, only when no
    column matches that label, what "Key" resolves to. *)
Theorem column_resolver (cols : list pystr) :
  (forall needle,
      exists r, resolves needle cols r /\ find_col cols needle = default [] r)
  /\ (forall needle c, needle <> [] -> resolves needle cols (Some c) -> c <> [])
  /\ col_steps cols = find_col cols (u "Manual Test Steps")
  /\ col_sum cols = find_col cols (u "Summary")
  /\ exists r1 r2,
       resolves (u "Issue key") cols r1 /\ resolves (u "Key") cols r2
       /\ col_key cols = match r1 with
                         | Some c => c
                         | None => default [] r2
                         end.
Proof.
  split; [intros needle; apply find_col_resolves|].
  split; [intros needle c; apply resolves_some_nonempty|].
  split; [reflexivity|]. split; [reflexivity|].
  destruct (find_col_resolves cols (u "Issue key")) as [r1 [H1 E1]].
  destruct (find_col_resolves cols (u "Key")) as [r2 [H2 E2]].
  exists r1, r2. split; [exact H1|]. split; [exact H2|].
  unfold col_key. rewrite E1, E2. destruct r1 as [c|]; simpl; [|reflexivity].
  assert (Hc : c <> []).
  { apply (resolves_some_nonempty (u "Issue key") cols); [discriminate | exact H1]. }
  destruct c; [contradiction | reflexivity].
Qed.

End ColumnResolverProperties.

Lemma column_resolver_witness :
  let cols := [u "Summary"; u "Project key"; u "Custom field (Manual Test Steps)";
               u "ISSUE KEY"; u "Epic summary"] in
  col_steps (H := ascii_lib) cols = u "Custom field (Manual Test Steps)"
  /\ col_key (H := ascii_lib) cols = u "ISSUE KEY"
  /\ col_sum (H := ascii_lib) cols = u "Summary"
  /\ col_key (H := ascii_lib) [u "Summary"; u "Project key"] = u "Project key"
  /\ find_col (H := ascii_lib) cols (u "Assignee") = []
  /\ u "ISSUE KEY" <> [].
Proof.
  intros cols.
  destruct (column_resolver (H := ascii_lib) cols) as (_ & Hne & _).
  repeat split; try (vm_compute; reflexivity).
  apply (Hne (u "Issue key") (u "ISSUE KEY")); [discriminate|].
  apply (resolves_first (H := ascii_lib) (u "Issue key")
           [u "Summary"; u "Project key"; u "Custom field (Manual Test Steps)"]
           (u "ISSUE KEY") [u "Epic summary"]).
  - intros x Hx Hm. apply contains_substring in Hm.
    repeat (apply elem_of_cons in Hx as [-> | Hx]; [vm_compute in Hm; discriminate Hm|]).
    inversion Hx.
  - apply contains_substring. vm_compute. reflexivity.
Defined.

(** ** The column check of the script *)

Section ScriptProperties.
Context `{PyLib}.

Lemma str_or_empty (a b : pystr) : str_or a b = [] <-> a = [] /\ b = [].
Proof.
  destruct a; simpl; split.
  - intros ->. split; reflexivity.
  - intros [_ E]. exact E.
  - discriminate.
  - intros [E _]. discriminate E.
Qed.

Lemma col_steps_unresolved (cols : list pystr) :
  col_steps cols = [] <-> unresolved cols (u "Manual Test Steps").
Proof.
  unfold col_steps, unresolved. rewrite find_col_empty by discriminate.
  split; [intros Hall; split; [exact Hall | intros E; discriminate E] | intros [Hall _]; exact Hall].
Qed.

Lemma col_sum_unresolved (cols : list pystr) :
  col_sum cols = [] <-> unresolved cols (u "Summary").
Proof.
  unfold col_sum, unresolved. rewrite find_col_empty by discriminate.
  split; [intros Hall; split; [exact Hall | intros E; discriminate E] | intros [Hall _]; exact Hall].
Qed.

Lemma col_key_unresolved (cols : list pystr) :
  col_key cols = [] <-> unresolved cols (u "Issue key").
Proof.
  unfold col_key, unresolved.
  rewrite str_or_empty, !find_col_empty by discriminate.
  split; [intros [H1 H2]; split; [exact H1 | intros _; exact H2] | intros [H1 H2]; split; auto].
Qed.

Lemma missing_unresolved (cols : list pystr) :
  missing cols
  = filter (unresolved cols) [u "Manual Test Steps"; u "Issue key"; u "Summary"].
Proof.
  unfold missing.
  pose proof (col_steps_unresolved cols) as Hs.
  pose proof (col_key_unresolved cols) as Hk.
  pose proof (col_sum_unresolved cols) as Hm.
  rewrite !filter_cons, filter_nil.
  destruct (decide (unresolved cols (u "Manual Test Steps"))) as [Us|Us];
    destruct (decide (unresolved cols (u "Issue key"))) as [Uk|Uk];
    destruct (decide (unresolved cols (u "Summary"))) as [Um|Um];
    destruct (col_steps cols) eqn:Es; destruct (col_key cols) eqn:Ek;
    destruct (col_sum cols) eqn:Em;
    try reflexivity; exfalso;
    first [ apply Us, Hs; reflexivity | apply Uk, Hk; reflexivity
          | apply Um, Hm; reflexivity
          | apply Hs in Us; discriminate Us | apply Hk in Uk; discriminate Uk
          | apply Hm in Um; discriminate Um ].
Qed.

(** C8: when some of the three labels resolve to no column, the run
    stops with the error message that lists exactly those labels, in the
    order steps, key, summary; the flattening function is not called,
    whatever it is, and no table is produced. *)
Theorem missing_columns_stop
    (flatten : RawFrame -> pystr -> pystr -> pystr -> res DataFrame)
    (df_raw : RawFrame) (collapse_opt : bool) :
  let labels :=
    filter (unresolved (raw_columns df_raw))
           [u "Manual Test Steps"; u "Issue key"; u "Summary"] in
  labels <> [] ->
  script flatten df_raw collapse_opt
  = Stopped (missing_prefix ++ join (u ", ") labels)
  /\ main df_raw collapse_opt = Stopped (missing_prefix ++ join (u ", ") labels).
Proof.
  intros labels Hne. unfold main, script.
  rewrite (missing_unresolved (raw_columns df_raw)). fold labels.
  destruct labels; [contradiction | split; reflexivity].
Qed.

(** With the three labels resolved the script goes on to flatten. *)
Lemma resolved_columns_flatten
    (flatten : RawFrame -> pystr -> pystr -> pystr -> res DataFrame)
    (df_raw : RawFrame) (collapse_opt : bool) :
  let cols := raw_columns df_raw in
  filter (unresolved cols) [u "Manual Test Steps"; u "Issue key"; u "Summary"] = [] ->
  script flatten df_raw collapse_opt
  = match flatten df_raw (col_steps cols) (col_key cols) (col_sum cols) with
    | Raise e => Uncaught e
    | Ok flat =>
        Rendered (if collapse_opt
                  then collapse_repeats flat (u "Issue key") [u "Issue key"; u "Summary"]
                  else flat)
    end.
Proof.
  intros cols Hnone. unfold script. fold cols.
  rewrite (missing_unresolved cols), Hnone. reflexivity.
Qed.

End ScriptProperties.

Lemma missing_columns_stop_witness :
  let df_raw := {| raw_columns := [u "Key"; u "Status"; u "Test steps"];
                   raw_data := [[Str (u "X-1"); Str (u "Open"); Str (u "[]")]] |} in
  filter (unresolved (H := ascii_lib) (raw_columns df_raw))
         [u "Manual Test Steps"; u "Issue key"; u "Summary"]
  = [u "Manual Test Steps"; u "Summary"]
  /\ main (H := ascii_lib) df_raw true
     = Stopped (missing_prefix ++ u "Manual Test Steps, Summary").
Proof.
  intros df_raw.
  assert (E : filter (unresolved (H := ascii_lib) (raw_columns df_raw))
                [u "Manual Test Steps"; u "Issue key"; u "Summary"]
              = [u "Manual Test Steps"; u "Summary"]) by (vm_compute; reflexivity).
  split; [exact E|].
  destruct (missing_columns_stop (H := ascii_lib) (build_flat (H := ascii_lib))
              df_raw true) as [_ Hm].
  - rewrite E. discriminate.
  - rewrite Hm, E. reflexivity.
Defined.

(** ** [pd.unique] and the case map *)

Section Unique.
Context {A : Type} `{EqDecision A}.
Implicit Types l : list A.

Lemma elem_of_unique l x : x ∈ unique l <-> x ∈ l.
Proof.
  induction l as [|y l IH]; simpl; [reflexivity|].
  rewrite !elem_of_cons, list_elem_of_filter, IH.
  destruct (decide (x = y)) as [->|Hne]; [tauto|].
  split; [intros [E | [_ Hx]]; auto | intros [E | Hx]; auto].
Qed.

Lemma NoDup_unique l : NoDup (unique l).
Proof.
  induction l as [|y l IH]; simpl; [constructor|].
  constructor.
  - rewrite list_elem_of_filter. intros [Hne _]. exact (Hne eq_refl).
  - apply NoDup_filter. exact IH.
Qed.

Lemma filter_all (P : A -> Prop) `{forall x, Decision (P x)} l :
  (forall x, P x) -> filter P l = l.
Proof.
  intros HP. induction l as [|y l IH]; [reflexivity|].
  rewrite filter_cons_True by apply HP. f_equal. exact IH.
Qed.

Lemma unique_app l1 l2 :
  unique (l1 ++ l2) = unique l1 ++ filter (fun y => y ∉ l1) (unique l2).
Proof.
  induction l1 as [|x l1 IH]; simpl.
  - symmetry. apply filter_all. intros y Hy. inversion Hy.
  - f_equal. rewrite IH, filter_app. f_equal.
    rewrite list_filter_filter. apply list_filter_iff.
    intros y. rewrite not_elem_of_cons. tauto.
Qed.

(** Up to the first occurrence of [x], the distinct values are those
    of the rows before it. *)
Lemma unique_first_occurrence l1 l2 x :
  x ∉ l1 ->
  exists rest, unique (l1 ++ x :: l2) = unique l1 ++ x :: rest.
Proof.
  intros Hx. rewrite unique_app. simpl.
  rewrite filter_cons_True by exact Hx. eauto.
Qed.

End Unique.

Lemma map_get_imap (g : nat -> Z) (before after : list value) (k : value) :
  k ∉ before ->
  map_get k (imap (fun i x => (x, g i)) (before ++ k :: after))
  = Some (g (length before)).
Proof.
  revert g. induction before as [|y before IH]; intros g Hk; simpl.
  - rewrite decide_True by reflexivity. reflexivity.
  - apply not_elem_of_cons in Hk as [Hne Hk].
    rewrite decide_False by congruence.
    exact (IH (g ∘ S) Hk).
Qed.

Lemma map_get_none (m : list (value * Z)) (k : value) :
  k ∉ m.*1 -> map_get k m = None.
Proof.
  induction m as [|[k' z] m IH]; simpl; [reflexivity|].
  intros Hk. apply not_elem_of_cons in Hk as [Hne Hk].
  rewrite decide_False by congruence. exact (IH Hk).
Qed.

Lemma imap_keys (g : nat -> Z) (l : list value) :
  (imap (fun i x => (x, g i)) l).*1 = l.
Proof.
  revert g. induction l as [|x l IH]; intros g; simpl; [reflexivity|].
  f_equal. exact (IH (g ∘ S)).
Qed.

Lemma case_map_keys (uniques : list value) :
  (case_map uniques).*1 = filter (fun k => notna k = true) uniques.
Proof. apply (imap_keys (fun i => (Z.of_nat i + 1)%Z)). Qed.

(** A missing key has no entry in the case map. *)
Lemma case_map_missing (keys : list value) (k : value) :
  isna k = true -> map_get k (case_map (unique keys)) = None.
Proof.
  intros Hk. apply map_get_none. rewrite case_map_keys.
  rewrite list_elem_of_filter. intros [Hn _].
  unfold notna in Hn. rewrite Hk in Hn. discriminate Hn.
Qed.

(** A key that is not missing is mapped to one more than the number of
    distinct keys, not missing, of the rows before its first row. *)
Lemma case_map_rank (before after : list value) (k : value) :
  notna k = true -> k ∉ before ->
  map_get k (case_map (unique (before ++ k :: after)))
  = Some (Z.of_nat (length (filter (fun x => notna x = true) (unique before))) + 1)%Z.
Proof.
  intros Hk Hb. destruct (unique_first_occurrence before after k Hb) as [rest ->].
  unfold case_map. rewrite filter_app, filter_cons_True by exact Hk.
  apply (map_get_imap (fun i => (Z.of_nat i + 1)%Z)).
  rewrite list_elem_of_filter, elem_of_unique. tauto.
Qed.

Lemma series_map_lookup (m : list (value * Z)) (keys : list value) (i : nat) (k : value) :
  keys !! i = Some k ->
  series_map m keys !! i
  = Some (match map_get k m with
          | Some z => VInt z
          | None => VFloat FNan
          end).
Proof. intros Hk. unfold series_map. rewrite list_lookup_fmap, Hk. reflexivity. Qed.

(** The numbering of a key column, row by row. *)
Lemma numbering_row (keys : list value) (i : nat) (k : value) :
  keys !! i = Some k ->
  (notna k = true ->
   exists j, (j <= i)%nat /\ keys !! j = Some k /\ (k ∉ take j keys)
     /\ series_map (case_map (unique keys)) keys !! i
        = Some (VInt (Z.of_nat (length (filter (fun x => notna x = true)
                                               (unique (take j keys)))) + 1)))
  /\ (isna k = true ->
      series_map (case_map (unique keys)) keys !! i = Some (VFloat FNan)).
Proof.
  intros Hk. rewrite (series_map_lookup _ _ _ _ Hk). split.
  - intros Hn.
    assert (Hin : k ∈ keys) by (apply list_elem_of_lookup; eauto).
    apply list_elem_of_split_l in Hin as [before [after [-> Hb]]].
    exists (length before).
    rewrite take_app_length, (case_map_rank before after k Hn Hb).
    repeat split; try assumption.
    + destruct (decide (length before <= i)%nat) as [Hle|Hgt]; [exact Hle|].
      exfalso. apply Hb. rewrite lookup_app_l in Hk by lia.
      apply list_elem_of_lookup. eauto.
    + apply list_lookup_middle. reflexivity.
  - intros Hm. rewrite (case_map_missing keys k Hm). reflexivity.
Qed.

(** ** The Flattener *)

Lemma for_each_Forall2 {A B : Type} (f : A -> res B) (l : list A) (bs : list B) :
  for_each f l = Ok bs <-> Forall2 (fun a b => f a = Ok b) l bs.
Proof.
  revert bs. induction l as [|a l IH]; intros bs; simpl.
  - split.
    + intros E. injection E as <-. constructor.
    + intros Hf. inversion Hf. reflexivity.
  - unfold mbind, res_bind. destruct (f a) as [b|e] eqn:Ea.
    + destruct (for_each f l) as [bs'|e] eqn:El.
      * split.
        -- intros E. injection E as <-. constructor; [exact Ea | apply IH; reflexivity].
        -- intros Hf. inversion Hf as [|a' b' l' bs'' Hab Hrest]; subst.
           apply IH in Hrest. congruence.
      * split; [discriminate|].
        intros Hf. inversion Hf as [|a' b' l' bs'' Hab Hrest]; subst.
        apply IH in Hrest. discriminate Hrest.
    + split; [discriminate|].
      intros Hf. inversion Hf as [|a' b' l' bs'' Hab Hrest]; subst. congruence.
Qed.

Lemma for_each_raise {A B : Type} (f : A -> res B) (l : list A) (a : A) (e : exn) :
  a ∈ l -> (forall x, x ∈ l -> forall e', f x = Raise e' -> e' = e) ->
  f a = Raise e -> for_each f l = Raise e.
Proof.
  intros Ha Hall Hfa. induction l as [|x l IH]; [inversion Ha|].
  simpl. unfold mbind, res_bind.
  destruct (f x) as [b|e'] eqn:Ex.
  - apply elem_of_cons in Ha as [-> | Ha]; [congruence|].
    rewrite IH; [reflexivity | exact Ha |].
    intros y Hy. apply Hall. apply elem_of_cons. right. exact Hy.
  - f_equal. apply (Hall x); [apply elem_of_cons; left; reflexivity | exact Ex].
Qed.

Section FlattenerProperties.
Context `{PyLib}.

Lemma get_inv (obj : value) (k : pystr) (dflt v : value) :
  get obj k dflt = Ok v -> exists d, obj = VDict d.
Proof. destruct obj; simpl; intros E; try discriminate E. eauto. Qed.

Lemma parse_item_keys (item : value) (s : dict) :
  parse_item item = Ok s -> s.*1 = step_keys.
Proof.
  unfold parse_item, mbind, res_bind. intros E.
  destruct (if isinstance_dict item then _ else _) as [fields|]; [|discriminate E].
  destruct (get fields (u "Action") (VStr [])); [|discriminate E].
  destruct (get fields (u "Data") (VStr [])); [|discriminate E].
  destruct (get fields (u "Expected Result") (VStr [])); [|discriminate E].
  destruct (get item (u "index") VNone); [|discriminate E].
  injection E as <-. reflexivity.
Qed.

Lemma parse_item_raises (item : value) (e : exn) :
  parse_item item = Raise e -> e = AttributeError.
Proof.
  assert (Hg : forall obj k dflt e', get obj k dflt = Raise e' -> e' = AttributeError).
  { intros obj k dflt e'. destruct obj; simpl; congruence. }
  unfold parse_item, mbind, res_bind. intros E.
  destruct (isinstance_dict item).
  - destruct (get item (u "fields") (VDict [])) as [fields|e1] eqn:E1;
      [|apply Hg in E1; congruence].
    repeat match type of E with
           | match ?g with _ => _ end = _ =>
               let Eg := fresh "Eg" in
               destruct g eqn:Eg; [|apply Hg in Eg; congruence]
           end.
    discriminate E.
  - repeat match type of E with
           | match ?g with _ => _ end = _ =>
               let Eg := fresh "Eg" in
               destruct g eqn:Eg; [|apply Hg in Eg; congruence]
           end.
    discriminate E.
Qed.

Lemma parse_cell_keys (cell : value) (steps : list dict) :
  parse_manual_steps_cell cell = Ok steps ->
  Forall (fun s => s.*1 = step_keys) steps.
Proof.
  unfold parse_manual_steps_cell. intros E.
  destruct cell as [| | | |c| |]; try (injection E as <-; constructor).
  destruct (decide (strip c = [])); [injection E as <-; constructor|].
  destruct (decode _) as [[| | | | |items|]|]; try (injection E as <-; constructor).
  apply for_each_Forall2 in E.
  induction E as [|item s items steps Hs _ IH]; constructor; [|exact IH].
  exact (parse_item_keys item s Hs).
Qed.

(** The only exception the parser raises. *)
Lemma parse_cell_raises (cell : value) (e : exn) :
  parse_manual_steps_cell cell = Raise e -> e = AttributeError.
Proof.
  unfold parse_manual_steps_cell. intros E.
  destruct cell as [| | | |c| |]; try discriminate E.
  destruct (decide (strip c = [])); [discriminate E|].
  destruct (decode _) as [[| | | | |items|]|]; try discriminate E.
  induction items as [|item items IH]; [discriminate E|].
  simpl in E. unfold mbind, res_bind in E.
  destruct (parse_item item) as [s|e'] eqn:Es.
  - destruct (for_each parse_item items) as [ss|e'] eqn:Ess; [discriminate E|].
    injection E as <-. apply IH. reflexivity.
  - injection E as <-. exact (parse_item_raises item e' Es).
Qed.

End FlattenerProperties.

Section FlatRows.
Context `{PyLib}.
Local Arguments Nat.max : simpl never.

Lemma dict_update_step (key summ : value) (s : dict) :
  s.*1 = step_keys ->
  dict_update [(u "Issue key", key); (u "Summary", summ)] s
  = (u "Issue key", key) :: (u "Summary", summ) :: s.
Proof.
  intros Hs.
  destruct s as [|[k1 v1] [|[k2 v2] [|[k3 v3] [|[k4 v4] [|? ?]]]]];
    try discriminate Hs.
  injection Hs as -> -> -> ->. reflexivity.
Qed.

(** What one record appends to [rows]: one dict per step, or the
    placeholder when there is no step; each carries the key and the
    summary of the record. *)
Lemma row_dicts_ok (cols : list pystr) (cs ck csum : pystr) (r : list cell)
    (ds : list dict) :
  row_dicts cols cs ck csum r = Ok ds ->
  exists steps,
    parse_manual_steps_cell (r_get cols r cs) = Ok steps
    /\ ds = match steps with
            | [] => [ [ (u "Issue key", r_get cols r ck);
                        (u "Summary", r_get cols r csum);
                        (u "Step #", VNone); (u "Action", VStr []);
                        (u "Data", VStr []); (u "Expected Result", VStr []) ] ]
            | _ => (fun s => (u "Issue key", r_get cols r ck)
                             :: (u "Summary", r_get cols r csum) :: s) <$> steps
            end.
Proof.
  unfold row_dicts, mbind, res_bind. intros E.
  destruct (parse_manual_steps_cell (r_get cols r cs)) as [steps|] eqn:Ep;
    [|discriminate E].
  exists steps. split; [reflexivity|].
  pose proof (parse_cell_keys _ _ Ep) as Hk.
  destruct steps as [|s steps]; injection E as <-; [reflexivity|].
  apply (Forall_fmap_ext_1
           (dict_update [(u "Issue key", r_get cols r ck);
                         (u "Summary", r_get cols r csum)])
           (fun s => (u "Issue key", r_get cols r ck)
                     :: (u "Summary", r_get cols r csum) :: s)
           (s :: steps)).
  eapply Forall_impl; [exact Hk|].
  intros s' Hs'. apply dict_update_step. exact Hs'.
Qed.

Lemma row_dicts_length (cols : list pystr) (cs ck csum : pystr) (r : list cell)
    (ds : list dict) :
  row_dicts cols cs ck csum r = Ok ds ->
  exists steps,
    parse_manual_steps_cell (r_get cols r cs) = Ok steps
    /\ length ds = Nat.max 1 (length steps)
    /\ Forall (fun d => d.*1 = row_keys) ds.
Proof.
  intros E. destruct (row_dicts_ok _ _ _ _ _ _ E) as [steps [Ep ->]].
  exists steps. split; [exact Ep|].
  pose proof (parse_cell_keys _ _ Ep) as Hk.
  destruct steps as [|s steps].
  - split; [reflexivity|]. repeat constructor.
  - split; [rewrite length_fmap; simpl; lia|].
    apply Forall_fmap. eapply Forall_impl; [exact Hk|].
    intros s' Hs'. unfold row_keys. rewrite <- Hs'. reflexivity.
Qed.

Lemma row_dicts_raises (cols : list pystr) (cs ck csum : pystr) (r : list cell)
    (e : exn) :
  row_dicts cols cs ck csum r = Raise e ->
  parse_manual_steps_cell (r_get cols r cs) = Raise AttributeError
  /\ e = AttributeError.
Proof.
  unfold row_dicts, mbind, res_bind. intros E.
  destruct (parse_manual_steps_cell (r_get cols r cs)) as [steps|e'] eqn:Ep.
  - destruct steps; discriminate E.
  - injection E as <-. rewrite (parse_cell_raises _ _ Ep). split; reflexivity.
Qed.

(** The rows emitted for a table: at least one per record, exactly one
    for a record with at most one step. *)
Lemma flat_rows_count (df : RawFrame) (cs ck csum : pystr) (rows : list dict) :
  flat_rows df cs ck csum = Ok rows ->
  exists counts,
    step_counts df cs = Ok counts
    /\ length counts = length (raw_data df)
    /\ length rows = sum_list (Nat.max 1 <$> counts)
    /\ Forall (fun d => d.*1 = row_keys) rows.
Proof.
  unfold flat_rows, step_counts, mbind at 1, res_bind at 1.
  destruct (for_each _ (raw_data df)) as [per_row|] eqn:Ef; [|discriminate].
  intros E. injection E as <-.
  apply for_each_Forall2 in Ef.
  induction Ef as [|r ds rs per_row Hr _ (counts & Ec & Hlen & Hsum & Hkeys)].
  - exists []. repeat split; constructor.
  - destruct (row_dicts_length _ _ _ _ _ _ Hr) as (steps & Ep & Hl & Hk).
    exists (length steps :: counts). simpl.
    unfold mbind, res_bind in *. rewrite Ep, Ec. simpl.
    repeat split.
    + rewrite Hlen. reflexivity.
    + rewrite length_app, Hl, Hsum. reflexivity.
    + apply Forall_app. split; assumption.
Qed.

Lemma sum_list_max_1 (counts : list nat) :
  (length counts <= sum_list (Nat.max 1 <$> counts))%nat
  /\ (sum_list (Nat.max 1 <$> counts) = length counts
      <-> Forall (fun n => (n <= 1)%nat) counts).
Proof.
  induction counts as [|n counts [IH1 IH2]]; simpl.
  - split; [lia|]. split; [constructor | reflexivity].
  - change (list_fmap nat nat (Nat.max 1) counts) with (Nat.max 1 <$> counts).
    split; [lia|]. rewrite Forall_cons, <- IH2. lia.
Qed.

End FlatRows.

(** ** The table made from the rows, and its numbering *)

Lemma dict_values (d : dict) :
  d.*1 = row_keys ->
  (fun c => default (VFloat FNan) (dict_get c d)) <$> row_keys = d.*2.
Proof.
  intros Hd.
  destruct d as [|[k1 v1] [|[k2 v2] [|[k3 v3] [|[k4 v4] [|[k5 v5] [|[k6 v6] [|? ?]]]]]]];
    try discriminate Hd.
  injection Hd as -> -> -> -> -> ->. reflexivity.
Qed.

Lemma dict_values_length (d : dict) : d.*1 = row_keys -> length d.*2 = 6%nat.
Proof.
  intros Hd. rewrite length_fmap, <- (length_fmap fst), Hd. reflexivity.
Qed.

Lemma filter_none {A : Type} (P : A -> Prop) `{forall x, Decision (P x)} (l : list A) :
  Forall (fun x => ~ P x) l -> filter P l = [].
Proof.
  induction 1 as [|x l Hx _ IH]; [reflexivity|].
  rewrite filter_cons_False by exact Hx. exact IH.
Qed.

Lemma DataFrame_of_nil : DataFrame_of [] = {| columns := []; data := [] |}.
Proof. reflexivity. Qed.

(** The table made from rows that all have the six keys: these are its
    columns, in this order, and its rows are the values of the dicts. *)
Lemma DataFrame_of_rows (rows : list dict) :
  rows <> [] -> Forall (fun d => d.*1 = row_keys) rows ->
  DataFrame_of rows = {| columns := row_keys; data := (fun d => d.*2) <$> rows |}.
Proof.
  intros Hne Hk. unfold DataFrame_of.
  assert (Hc : unique (concat ((fun r => r.*1) <$> rows)) = row_keys).
  { destruct Hk as [|d rows Hd Hk]; [contradiction|].
    rewrite fmap_cons, Hd, concat_cons, unique_app.
    replace (unique row_keys) with row_keys by reflexivity.
    rewrite filter_none; [apply app_nil_r|].
    apply Forall_forall. intros x Hx Hnot. apply Hnot.
    apply (proj1 (elem_of_unique _ _)) in Hx.
    clear -Hx Hk. induction Hk as [|d' rows Hd' _ IH]; [inversion Hx|].
    rewrite fmap_cons, concat_cons in Hx.
    apply elem_of_app in Hx as [Hx | Hx]; [congruence | exact (IH Hx)]. }
  rewrite Hc. f_equal.
  apply Forall_fmap_ext_1. eapply Forall_impl; [exact Hk|].
  intros d Hd. apply dict_values. exact Hd.
Qed.

(** The steps of the numbering on a table with the six columns. *)
Lemma case_numbering_steps (vals : list (list value)) :
  case_numbering {| columns := row_keys; data := vals |}
  = (order ← Categorical (cell_at 0 <$> vals) (unique (cell_at 0 <$> vals));
     let with_ord := zip_with (fun r v => r ++ [v]) vals order in
     let keys := cell_at 0 <$> with_ord in
     Ok {| columns := flat_columns;
           data := (fun r => List.map (fun i => cell_at i r) [0; 1; 2; 3; 4; 5; 6]%nat)
                     <$> (delete 7%nat
                            <$> zip_with cons (series_map (case_map (unique keys)) keys)
                                         with_ord) |}).
Proof. reflexivity. Qed.

Lemma forallb_elem_of {A : Type} (f : A -> bool) (l : list A) :
  forallb f l = true <-> forall x, x ∈ l -> f x = true.
Proof.
  rewrite forallb_forall. split; intros Hall x Hx; apply Hall, list_elem_of_In, Hx.
Qed.

Lemma Categorical_ok (keys : list value) :
  forallb notna keys = true ->
  exists order, Categorical keys (unique keys) = Ok order /\ length order = length keys.
Proof.
  intros Hn. unfold Categorical.
  assert (Hu : forallb notna (unique keys) = true).
  { apply forallb_elem_of. intros k Hk.
    apply (proj1 (elem_of_unique _ _)) in Hk.
    exact (proj1 (forallb_elem_of _ _) Hn k Hk). }
  rewrite Hu, decide_True by apply NoDup_unique.
  eexists. split; [reflexivity|]. apply length_fmap.
Qed.

Lemma Categorical_missing (keys : list value) :
  forallb notna keys = false -> Categorical keys (unique keys) = Raise ValueError.
Proof.
  intros Hn. unfold Categorical.
  destruct (forallb notna (unique keys)) eqn:Hu; [|reflexivity].
  exfalso.
  assert (Hall : forallb notna keys = true); [|congruence].
  apply forallb_elem_of. intros k Hk.
  apply (proj1 (forallb_elem_of _ _) Hu), elem_of_unique. exact Hk.
Qed.

(** Adding the columns [Case #] and [_ord], dropping [_ord] and ordering
    the columns leaves each row with its case number in front. *)
Lemma numbered_rows (vals : list (list value)) (order cases : list value) :
  Forall (fun r => length r = 6%nat) vals ->
  length order = length vals -> length cases = length vals ->
  cell_at 0 <$> zip_with (fun r v => r ++ [v]) vals order = cell_at 0 <$> vals
  /\ (fun r => List.map (fun i => cell_at i r) [0; 1; 2; 3; 4; 5; 6]%nat)
       <$> (delete 7%nat
              <$> zip_with cons cases (zip_with (fun r v => r ++ [v]) vals order))
     = zip_with cons cases vals.
Proof.
  intros Hv. revert order cases.
  induction Hv as [|r vals Hr _ IH]; intros order cases Ho Hc.
  - destruct order, cases; try discriminate. split; reflexivity.
  - destruct order as [|o order]; [discriminate|].
    destruct cases as [|c cases]; [discriminate|].
    injection Ho as Ho. injection Hc as Hc.
    destruct (IH order cases Ho Hc) as [IH1 IH2].
    destruct r as [|a1 [|a2 [|a3 [|a4 [|a5 [|a6 [|? ?]]]]]]]; try discriminate Hr.
    split.
    + cbn [zip_with fmap list_fmap]. f_equal. exact IH1.
    + cbn [zip_with fmap list_fmap]. f_equal. exact IH2.
Qed.

(** The numbering returns exactly when the table has a row and no key is
    missing; the result has the seven columns and the case numbers in
    front of the rows. *)
Lemma case_numbering_ok (vals : list (list value)) :
  Forall (fun r => length r = 6%nat) vals ->
  forallb notna (cell_at 0 <$> vals) = true ->
  case_numbering {| columns := row_keys; data := vals |}
  = Ok {| columns := flat_columns;
          data := zip_with cons
                    (series_map (case_map (unique (cell_at 0 <$> vals)))
                                (cell_at 0 <$> vals))
                    vals |}.
Proof.
  intros Hv Hn. rewrite case_numbering_steps.
  destruct (Categorical_ok _ Hn) as [order [-> Ho]].
  rewrite length_fmap in Ho.
  cbn [mbind res_bind].
  destruct (numbered_rows vals order
              (series_map (case_map (unique (cell_at 0 <$> vals))) (cell_at 0 <$> vals))
              Hv Ho) as [E1 E2].
  { unfold series_map. rewrite !length_fmap. reflexivity. }
  rewrite E1, E2. reflexivity.
Qed.

Lemma case_numbering_missing (vals : list (list value)) :
  forallb notna (cell_at 0 <$> vals) = false ->
  case_numbering {| columns := row_keys; data := vals |} = Raise ValueError.
Proof.
  intros Hn. rewrite case_numbering_steps, (Categorical_missing _ Hn). reflexivity.
Qed.

Lemma case_numbering_no_rows :
  case_numbering (DataFrame_of []) = Raise KeyError.
Proof. reflexivity. Qed.

(** ** [build_flat] *)

Section BuildFlat.
Context `{PyLib}.

(** [build_flat] on every table: it raises when a steps cell makes the
    parser raise, when the table has no row, and when the key of some
    emitted row is missing; otherwise it returns the emitted rows with
    their case numbers in front. *)
Lemma build_flat_cases (df : RawFrame) (cs ck csum : pystr) :
  build_flat df cs ck csum
  = match flat_rows df cs ck csum with
    | Raise e => Raise e
    | Ok [] => Raise KeyError
    | Ok rows =>
        let vals := (fun d => d.*2) <$> rows in
        let keys := cell_at 0 <$> vals in
        if forallb notna keys
        then Ok {| columns := flat_columns;
                   data := zip_with cons (series_map (case_map (unique keys)) keys)
                                    vals |}
        else Raise ValueError
    end.
Proof.
  unfold build_flat, mbind at 1, res_bind at 1.
  destruct (flat_rows df cs ck csum) as [rows|e] eqn:Er; [|reflexivity].
  destruct (flat_rows_count _ _ _ _ _ Er) as (_ & _ & _ & _ & Hk).
  destruct rows as [|d rows]; [reflexivity|].
  rewrite (DataFrame_of_rows (d :: rows)) by (discriminate || exact Hk).
  cbv zeta.
  destruct (forallb notna (cell_at 0 <$> ((fun d => d.*2) <$> d :: rows))) eqn:Hn.
  - apply case_numbering_ok; [|exact Hn].
    apply Forall_fmap. eapply Forall_impl; [exact Hk|].
    intros d' Hd'. apply dict_values_length. exact Hd'.
  - apply case_numbering_missing. exact Hn.
Qed.

Lemma flat_rows_raises (df : RawFrame) (cs ck csum : pystr) (e : exn) :
  flat_rows df cs ck csum = Raise e -> e = AttributeError.
Proof.
  unfold flat_rows, mbind, res_bind.
  generalize (raw_data df) as rs. intros rs.
  induction rs as [|r rs IH]; [discriminate|]. simpl. unfold mbind, res_bind.
  destruct (row_dicts _ cs ck csum r) as [ds|e'] eqn:Er.
  - destruct (for_each _ rs) as [per_row|e'] eqn:Ers; [discriminate|].
    intros E. injection E as <-. apply IH. reflexivity.
  - intros E. injection E as <-. exact (proj2 (row_dicts_raises _ _ _ _ _ _ Er)).
Qed.

(** One cell that makes the parser raise makes [build_flat] raise,
    whatever the other records are. *)
Lemma build_flat_bad_cell (df : RawFrame) (cs ck csum : pystr) (r : list cell) :
  r ∈ raw_data df ->
  parse_manual_steps_cell (r_get (raw_columns df) r cs) = Raise AttributeError ->
  build_flat df cs ck csum = Raise AttributeError.
Proof.
  intros Hr Hp. rewrite build_flat_cases.
  assert (E : flat_rows df cs ck csum = Raise AttributeError); [|rewrite E; reflexivity].
  unfold flat_rows, mbind at 1, res_bind at 1.
  rewrite (for_each_raise _ (raw_data df) r AttributeError Hr); [reflexivity | |].
  - intros x _ e' Hx. exact (proj2 (row_dicts_raises _ _ _ _ _ _ Hx)).
  - unfold row_dicts, mbind, res_bind. rewrite Hp. reflexivity.
Qed.

(** When [build_flat] returns: the table has the seven columns, one row
    per emitted dict, and in front of each row the number its key is
    mapped to. *)
Lemma build_flat_ok (df : RawFrame) (cs ck csum : pystr) (flat : DataFrame) :
  build_flat df cs ck csum = Ok flat ->
  exists rows,
    flat_rows df cs ck csum = Ok rows /\ rows <> []
    /\ columns flat = flat_columns
    /\ length (data flat) = length rows
    /\ exists keys,
         getitem flat (u "Issue key") = Ok keys
         /\ length keys = length (data flat)
         /\ forallb notna keys = true
         /\ getitem flat (u "Case #")
            = Ok (series_map (case_map (unique keys)) keys).
Proof.
  rewrite build_flat_cases.
  destruct (flat_rows df cs ck csum) as [rows|e] eqn:Er; [|discriminate].
  destruct (flat_rows_count _ _ _ _ _ Er) as (_ & _ & _ & _ & Hk).
  destruct rows as [|d rows]; [discriminate|].
  set (all := d :: rows) in *. cbv zeta.
  set (vals := (fun d => d.*2) <$> all).
  set (keys := cell_at 0 <$> vals).
  set (cases := series_map (case_map (unique keys)) keys).
  destruct (forallb notna keys) eqn:Hn; [|discriminate].
  intros E. injection E as <-.
  assert (Hlc : length cases = length vals).
  { unfold cases, series_map, keys. rewrite !length_fmap. reflexivity. }
  assert (Hv : Forall (fun r => length r = 6%nat) vals).
  { apply Forall_fmap. eapply Forall_impl; [exact Hk|].
    intros d' Hd'. apply dict_values_length. exact Hd'. }
  exists all. split; [reflexivity|]. split; [discriminate|].
  split; [reflexivity|].
  assert (Hlen : length (zip_with cons cases vals) = length all).
  { rewrite length_zip_with_l_eq by exact Hlc.
    rewrite Hlc. unfold vals. apply length_fmap. }
  split; [exact Hlen|].
  exists keys.
  assert (Hcols : forall cs0 vs,
             length cs0 = length vs ->
             cell_at 0 <$> zip_with cons cs0 vs = cs0
             /\ cell_at 1 <$> zip_with cons cs0 vs = cell_at 0 <$> vs).
  { clear. intros cs0. induction cs0 as [|c cs0 IH]; intros [|v vs] Hl;
      try discriminate Hl; [split; reflexivity|].
    injection Hl as Hl. destruct (IH vs Hl) as [IH1 IH2].
    split; cbn [zip_with fmap list_fmap]; f_equal; assumption. }
  destruct (Hcols cases vals Hlc) as [Hc0 Hc1].
  split; [unfold getitem; cbn; f_equal; exact Hc1|].
  split.
  { change (length keys = length (zip_with cons cases vals)).
    rewrite Hlen. unfold keys, vals. rewrite !length_fmap. reflexivity. }
  split; [exact Hn|].
  unfold getitem; cbn; f_equal; exact Hc0.
Qed.

(** When [build_flat] returns, it has emitted a row for every record,
    and more than one only for a record with several steps. *)
Lemma build_flat_count (df : RawFrame) (cs ck csum : pystr) (flat : DataFrame) :
  build_flat df cs ck csum = Ok flat ->
  exists counts,
    step_counts df cs = Ok counts
    /\ length counts = length (raw_data df)
    /\ length (data flat) = sum_list (Nat.max 1 <$> counts)
    /\ (length (raw_data df) <= length (data flat))%nat
    /\ (length (data flat) = length (raw_data df)
        <-> Forall (fun n => (n <= 1)%nat) counts).
Proof.
  intros E. destruct (build_flat_ok _ _ _ _ _ E) as (rows & Er & _ & _ & Hl & _).
  destruct (flat_rows_count _ _ _ _ _ Er) as (counts & Ec & Hlc & Hs & _).
  destruct (sum_list_max_1 counts) as [Hge Heq].
  exists counts. rewrite Hl, Hs, <- Hlc. auto.
Qed.

End BuildFlat.

(** A table without records: the table made from no rows has no
    columns, and reading its column [Issue key] raises. *)
Lemma build_flat_no_rows `{PyLib} (cols : list pystr) (cs ck csum : pystr) :
  build_flat {| raw_columns := cols; raw_data := [] |} cs ck csum = Raise KeyError.
Proof. reflexivity. Qed.

(** A table read from a file with a header line and no record: the three
    columns resolve, and flattening raises [KeyError], since the table
    made from no rows has no column [Issue key]. *)
Lemma header_only_table_raises :
  main (H := ascii_lib)
       {| raw_columns := [u "Issue key"; u "Summary"; u "Manual Test Steps"];
          raw_data := [] |} true
  = Uncaught KeyError.
Proof. vm_compute. reflexivity. Qed.

(** A record whose key cell is empty: [pd.Categorical] rejects the
    missing value among its categories and flattening raises
    [ValueError], before the case map is built. *)
Lemma missing_key_raises :
  main (H := ascii_lib)
       {| raw_columns := [u "Issue key"; u "Summary"; u "Manual Test Steps"];
          raw_data := [[Str (u "T-1"); Str (u "Login"); NaN];
                       [NaN; Str (u "Logout"); NaN]] |} true
  = Uncaught ValueError.
Proof. vm_compute. reflexivity. Qed.

(** C4, at a table of two records, the second with the steps cell [[1]]:
    the three columns resolve, the first record alone is flattened to its
    placeholder row, and with the second record [build_flat] raises
    [AttributeError], so that no row is emitted for either record, where
    the specification has at least one row per record.  The exception is
    the one of C1. *)
Theorem bad_cell_drops_every_record :
  let cols := [u "Issue key"; u "Summary"; u "Manual Test Steps"] in
  let first := [Str (u "T-1"); Str (u "Login"); NaN] in
  let second := [Str (u "T-2"); Str (u "Logout"); Str (u "[1]")] in
  (col_steps (H := ascii_lib) cols, col_key (H := ascii_lib) cols,
   col_sum (H := ascii_lib) cols)
  = (u "Manual Test Steps", u "Issue key", u "Summary")
  /\ build_flat (H := ascii_lib) {| raw_columns := cols; raw_data := [first] |}
                (u "Manual Test Steps") (u "Issue key") (u "Summary")
     = Ok {| columns := flat_columns;
             data := [[VInt 1; VStr (u "T-1"); VStr (u "Login"); VNone;
                       VStr []; VStr []; VStr []]] |}
  /\ build_flat (H := ascii_lib) {| raw_columns := cols; raw_data := [first; second] |}
                (u "Manual Test Steps") (u "Issue key") (u "Summary")
     = Raise AttributeError
  /\ main (H := ascii_lib) {| raw_columns := cols; raw_data := [first; second] |} true
     = Uncaught AttributeError.
Proof. repeat split; vm_compute; reflexivity. Qed.

(** ** Case numbers *)

(** C5, at a table of two records, the second with an empty key cell,
    which [read_csv] gives as [NaN].  The case map of the two keys
    numbers the first and has no entry for the missing one, which is what
    the specification has for a row without key.  But [pd.Categorical],
    called on the keys before the map is built and for a column that is
    dropped again, rejects the missing value among its categories:
    [build_flat] raises [ValueError], the run ends with it, and no row
    gets a case number, where the first record alone is flattened and
    numbered 1. *)
Theorem missing_key_stops_numbering :
  let cols := [u "Issue key"; u "Summary"; u "Manual Test Steps"] in
  let first := [Str (u "T-1"); Str (u "Login"); NaN] in
  let second := [NaN; Str (u "Logout"); NaN] in
  let keys := [VStr (u "T-1"); VFloat FNan] in
  (col_steps (H := ascii_lib) cols, col_key (H := ascii_lib) cols,
   col_sum (H := ascii_lib) cols)
  = (u "Manual Test Steps", u "Issue key", u "Summary")
  /\ r_get cols second (u "Issue key") = VFloat FNan
  /\ case_map (unique keys) = [(VStr (u "T-1"), 1%Z)]
  /\ map_get (VFloat FNan) (case_map (unique keys)) = None
  /\ Categorical keys (unique keys) = Raise ValueError
  /\ build_flat (H := ascii_lib) {| raw_columns := cols; raw_data := [first] |}
                (u "Manual Test Steps") (u "Issue key") (u "Summary")
     = Ok {| columns := flat_columns;
             data := [[VInt 1; VStr (u "T-1"); VStr (u "Login"); VNone;
                       VStr []; VStr []; VStr []]] |}
  /\ build_flat (H := ascii_lib) {| raw_columns := cols; raw_data := [first; second] |}
                (u "Manual Test Steps") (u "Issue key") (u "Summary")
     = Raise ValueError
  /\ main (H := ascii_lib) {| raw_columns := cols; raw_data := [first; second] |} true
     = Uncaught ValueError.
Proof. repeat split; vm_compute; reflexivity. Qed.

(** ** The Collapse Transform *)

Section Collapse.
Implicit Types (keys : list value) (cols cols_to_blank : list pystr).
Implicit Types (d : list (list value)) (idx : list nat).

Lemma blank_row_lookup cols cols_to_blank (row : list value) (j : nat) (x : value) :
  row !! j = Some x ->
  blank_row cols cols_to_blank row !! j
  = Some (if to_blank cols cols_to_blank j then VStr [] else x).
Proof.
  intros Hx. unfold blank_row, to_blank. rewrite list_lookup_imap, Hx. simpl.
  destruct (cols !! j) as [c|]; [|reflexivity].
  destruct (decide (c ∈ cols_to_blank)) as [Hc|Hc].
  - rewrite bool_decide_eq_true_2 by exact Hc. reflexivity.
  - rewrite bool_decide_eq_false_2 by exact Hc. reflexivity.
Qed.


Lemma blank_row_idempotent cols cols_to_blank (row : list value) :
  blank_row cols cols_to_blank (blank_row cols cols_to_blank row)
  = blank_row cols cols_to_blank row.
Proof.
  apply list_eq. intros j.
  destruct (row !! j) as [x|] eqn:Hx.
  - rewrite (blank_row_lookup _ _ _ _ _ (blank_row_lookup _ _ _ _ _ Hx)).
    rewrite (blank_row_lookup _ _ _ _ _ Hx).
    destruct (to_blank cols cols_to_blank j); reflexivity.
  - assert (Hn : forall r, r !! j = None -> blank_row cols cols_to_blank r !! j = None).
    { intros r Hr. unfold blank_row. rewrite list_lookup_imap, Hr. reflexivity. }
    rewrite (Hn _ (Hn _ Hx)), (Hn _ Hx). reflexivity.
Qed.

(** Rows altered at the positions [idx] by an idempotent function. *)
Lemma alter_positions_lookup (f : list value -> list value) idx d (i : nat) :
  (forall r, f (f r) = f r) ->
  fold_left (fun d i => alter f i d) idx d !! i
  = if decide (i ∈ idx) then f <$> d !! i else d !! i.
Proof.
  intros Hf. revert d. induction idx as [|a idx IH]; intros d; cbn [fold_left].
  - destruct (decide (i ∈ [])) as [Hi|_]; [inversion Hi | reflexivity].
  - rewrite IH.
    destruct (decide (i ∈ a :: idx)) as [Hin|Hnin];
      destruct (decide (i ∈ idx)) as [Hi|Hi].
    + destruct (decide (a = i)) as [->|Hne].
      * rewrite list_lookup_alter_eq.
        destruct (d !! i); simpl; [rewrite Hf|]; reflexivity.
      * rewrite list_lookup_alter_ne by exact Hne. reflexivity.
    + apply elem_of_cons in Hin as [-> | Hin]; [|contradiction].
      rewrite list_lookup_alter_eq. reflexivity.
    + exfalso. apply Hnin, elem_of_cons. right. exact Hi.
    + rewrite list_lookup_alter_ne; [reflexivity|].
      intros ->. apply Hnin, elem_of_cons. left. reflexivity.
Qed.

Lemma alter_positions_length (f : list value -> list value) idx d :
  length (fold_left (fun d i => alter f i d) idx d) = length d.
Proof.
  revert d. induction idx as [|a idx IH]; intros d; simpl; [reflexivity|].
  rewrite IH. apply length_alter.
Qed.

(** The positions after the first one at which [k] occurs. *)
Lemma tail_positions (n : nat) (k : value) keys (i : nat) :
  i ∈ tail (positions_from n k keys)
  <-> (n <= i)%nat /\ keys !! (i - n)%nat = Some k /\ k ∈ take (i - n) keys.
Proof.
  assert (Hpos : forall m ks, i ∈ positions_from m k ks
                              <-> (m <= i)%nat /\ ks !! (i - m)%nat = Some k).
  { intros m ks. revert m. induction ks as [|x ks IH]; intros m; simpl.
    - split; [intros Hi; inversion Hi | intros [_ Hi]; discriminate Hi].
    - destruct (decide (x = k)) as [->|Hne].
      + rewrite elem_of_cons, IH. split.
        * intros [-> | [Hle Hk]].
          -- split; [lia|]. replace (m - m)%nat with 0%nat by lia. reflexivity.
          -- split; [lia|]. replace (i - m)%nat with (S (i - S m)) by lia. exact Hk.
        * intros [Hle Hk]. destruct (decide (i = m)) as [->|Hne]; [left; reflexivity|].
          right. split; [lia|].
          replace (i - m)%nat with (S (i - S m)) in Hk by lia. exact Hk.
      + rewrite IH. split.
        * intros [Hle Hk]. split; [lia|].
          replace (i - m)%nat with (S (i - S m)) by lia. exact Hk.
        * intros [Hle Hk]. destruct (decide (i = m)) as [->|Hne'].
          -- replace (m - m)%nat with 0%nat in Hk by lia. simpl in Hk. congruence.
          -- split; [lia|].
             replace (i - m)%nat with (S (i - S m)) in Hk by lia. exact Hk. }
  revert n. induction keys as [|x keys IH]; intros n; simpl.
  - split; [intros Hi; inversion Hi | intros (_ & Hi & _); discriminate Hi].
  - destruct (decide (x = k)) as [->|Hne].
    + simpl. rewrite Hpos. split.
      * intros [Hle Hk]. split; [lia|].
        replace (i - n)%nat with (S (i - S n)) by lia.
        split; [exact Hk|]. simpl. apply elem_of_cons. left. reflexivity.
      * intros (Hle & Hk & Hin). destruct (decide (i = n)) as [->|Hne].
        -- replace (n - n)%nat with 0%nat in Hin by lia. inversion Hin.
        -- split; [lia|].
           replace (i - n)%nat with (S (i - S n)) in Hk by lia. exact Hk.
    + rewrite IH. split.
      * intros (Hle & Hk & Hin). split; [lia|].
        replace (i - n)%nat with (S (i - S n)) by lia.
        split; [exact Hk|]. simpl. apply elem_of_cons. right. exact Hin.
      * intros (Hle & Hk & Hin). destruct (decide (i = n)) as [->|Hne'].
        -- replace (n - n)%nat with 0%nat in Hk by lia. simpl in Hk. congruence.
        -- replace (i - n)%nat with (S (i - S n)) in Hk, Hin by lia.
           split; [lia|]. split; [exact Hk|].
           simpl in Hin. apply elem_of_cons in Hin as [-> | Hin]; [contradiction|exact Hin].
Qed.

Lemma repeats_true keys (i : nat) :
  repeats keys i = true
  <-> exists k, keys !! i = Some k /\ notna k = true /\ k ∈ take i keys.
Proof.
  unfold repeats. destruct (keys !! i) as [k|].
  - rewrite andb_true_iff, bool_decide_eq_true. split.
    + intros [Hn Hin]. exists k. auto.
    + intros (k' & E & Hn & Hin). injection E as <-. auto.
  - split; [discriminate | intros (k & E & _); discriminate E].
Qed.

End Collapse.

Section CollapseGroups.
Implicit Types (keys : list value) (cols_to_blank : list pystr).
Implicit Types (gs : list (value * list nat)).

Lemma blank_group_spec cols_to_blank (out : DataFrame) (g : value * list nat) (i : nat) :
  columns (blank_group cols_to_blank out g) = columns out
  /\ length (data (blank_group cols_to_blank out g)) = length (data out)
  /\ data (blank_group cols_to_blank out g) !! i
     = if decide (i ∈ tail g.2)
       then blank_row (columns out) cols_to_blank <$> data out !! i
       else data out !! i.
Proof.
  unfold blank_group. destruct (decide (1 < length g.2)%nat) as [Hl|Hl].
  - simpl. split; [reflexivity|]. split; [apply alter_positions_length|].
    apply alter_positions_lookup. apply blank_row_idempotent.
  - split; [reflexivity|]. split; [reflexivity|].
    destruct g as [k [|a [|b idx]]]; simpl in *; try lia;
      (destruct (decide (i ∈ [])) as [Hi|_]; [inversion Hi | reflexivity]).
Qed.

Lemma blank_groups_spec cols_to_blank gs (df : DataFrame) (i : nat) :
  columns (fold_left (blank_group cols_to_blank) gs df) = columns df
  /\ length (data (fold_left (blank_group cols_to_blank) gs df)) = length (data df)
  /\ data (fold_left (blank_group cols_to_blank) gs df) !! i
     = if decide (Exists (fun g => i ∈ tail g.2) gs)
       then blank_row (columns df) cols_to_blank <$> data df !! i
       else data df !! i.
Proof.
  revert df. induction gs as [|g gs IH]; intros df; cbn [fold_left].
  - split; [reflexivity|]. split; [reflexivity|].
    destruct (decide (Exists _ [])) as [He|_]; [inversion He | reflexivity].
  - destruct (IH (blank_group cols_to_blank df g)) as (Hc & Hl & Hd).
    destruct (blank_group_spec cols_to_blank df g i) as (Hc1 & Hl1 & Hd1).
    split; [congruence|]. split; [congruence|].
    rewrite Hd, Hd1, Hc1.
    destruct (decide (Exists (fun g => i ∈ tail g.2) gs)) as [Hgs|Hgs];
      destruct (decide (i ∈ tail g.2)) as [Hg|Hg];
      destruct (decide (Exists (fun g => i ∈ tail g.2) (g :: gs))) as [He|He];
      try reflexivity.
    + destruct (data df !! i); simpl; [rewrite blank_row_idempotent|]; reflexivity.
    + exfalso. apply He. right. exact Hgs.
    + exfalso. apply He. right. exact Hgs.
    + exfalso. apply He. left. exact Hg.
    + exfalso. inversion He; contradiction.
Qed.

Lemma groups_repeats keys (i : nat) :
  Exists (fun g => i ∈ tail g.2) (groups keys) <-> repeats keys i = true.
Proof.
  rewrite repeats_true. unfold groups. rewrite Exists_fmap, Exists_exists. simpl.
  split.
  - intros (k & Hk & Hi). apply list_elem_of_filter in Hk as [Hn _].
    apply tail_positions in Hi as (_ & Hi & Hin).
    rewrite Nat.sub_0_r in Hi, Hin. eauto.
  - intros (k & Hi & Hn & Hin). exists k. split.
    + apply list_elem_of_filter. split; [exact Hn|].
      apply elem_of_unique, list_elem_of_lookup. eauto.
    + apply tail_positions. rewrite Nat.sub_0_r. split; [lia | auto].
Qed.

Lemma col_pos_elem_of (cols : list pystr) (c : pystr) :
  is_Some (col_pos cols c) <-> c ∈ cols.
Proof.
  induction cols as [|c' cols IH]; simpl.
  - split; [intros [? E]; discriminate E | intros Hc; inversion Hc].
  - rewrite elem_of_cons. destruct (decide (c' = c)) as [->|Hne].
    + split; [auto | intros _; eauto].
    + rewrite fmap_is_Some, IH. split; [auto | intros [-> | Hc]; [contradiction | exact Hc]].
Qed.

(** [collapse_repeats] on a table with rows and with the group column:
    every row stays in place, and a row is blanked exactly when it
    repeats the key of an earlier row. *)
Lemma collapse_repeats_rows (df : DataFrame) (group_col : pystr) cols_to_blank keys
    (i : nat) :
  empty df = false -> getitem df group_col = Ok keys ->
  data (collapse_repeats df group_col cols_to_blank) !! i
  = if repeats keys i
    then blank_row (columns df) cols_to_blank <$> data df !! i
    else data df !! i.
Proof.
  intros He Hk. unfold collapse_repeats. rewrite He, Hk.
  assert (Hin : group_col ∈ columns df).
  { apply col_pos_elem_of. unfold getitem in Hk.
    destruct (col_pos (columns df) group_col); [eauto | discriminate Hk]. }
  rewrite bool_decide_eq_true_2 by exact Hin. simpl.
  destruct (blank_groups_spec cols_to_blank (groups keys) df i) as (_ & _ & ->).
  destruct (decide (Exists (fun g => i ∈ tail g.2) (groups keys))) as [Hg|Hg].
  - rewrite (proj1 (groups_repeats keys i) Hg). reflexivity.
  - destruct (repeats keys i) eqn:Hr; [|reflexivity].
    exfalso. apply Hg, groups_repeats. exact Hr.
Qed.

Lemma collapse_repeats_shape (df : DataFrame) (group_col : pystr) cols_to_blank :
  columns (collapse_repeats df group_col cols_to_blank) = columns df
  /\ length (data (collapse_repeats df group_col cols_to_blank)) = length (data df).
Proof.
  unfold collapse_repeats.
  destruct (empty df || negb (bool_decide (group_col ∈ columns df)));
    [split; reflexivity|].
  destruct (getitem df group_col) as [keys|]; [|split; reflexivity].
  destruct (blank_groups_spec cols_to_blank (groups keys) df 0) as (Hc & Hl & _).
  split; assumption.
Qed.

End CollapseGroups.




(** * Further properties *)

(** ** Text cleaning *)

Lemma rev_reverse {A : Type} (l : list A) : rev l = reverse l.
Proof.
  induction l as [|x l IH]; [reflexivity|].
  simpl. rewrite reverse_cons, IH. reflexivity.
Qed.

Lemma lstrip_split (s : pystr) :
  exists l, s = l ++ lstrip s /\ whitespace_only l.
Proof.
  induction s as [|c s (l & E & Hl)]; simpl.
  - exists []. split; [reflexivity | constructor].
  - destruct (isspace c) eqn:Hc.
    + exists (c :: l). split; [simpl; f_equal; exact E | constructor; assumption].
    + exists []. split; [reflexivity | constructor].
Qed.

Lemma lstrip_head (s : pystr) (c : N) :
  head (lstrip s) = Some c -> isspace c = false.
Proof.
  induction s as [|d s IH]; simpl; [discriminate|].
  destruct (isspace d) eqn:Hd; [exact IH|].
  simpl. intros E. injection E as <-. exact Hd.
Qed.

Lemma lstrip_id (s : pystr) :
  (forall c, head s = Some c -> isspace c = false) -> lstrip s = s.
Proof.
  destruct s as [|d s]; [reflexivity|]. simpl. intros Hh.
  rewrite (Hh d eq_refl). reflexivity.
Qed.

Lemma lstrip_app_ws (l x : pystr) : whitespace_only l -> lstrip (l ++ x) = lstrip x.
Proof.
  induction 1 as [|c l Hc _ IH]; [reflexivity|].
  simpl. rewrite Hc. exact IH.
Qed.

Lemma rstrip_split (s : pystr) :
  exists r, s = rstrip s ++ r /\ whitespace_only r.
Proof.
  unfold rstrip. destruct (lstrip_split (rev s)) as (l & E & Hl).
  exists (rev l). split.
  - rewrite <- rev_app_distr, <- E, rev_involutive. reflexivity.
  - unfold whitespace_only. rewrite rev_reverse. apply Forall_reverse. exact Hl.
Qed.

Lemma rstrip_last (s : pystr) (c : N) :
  last (rstrip s) = Some c -> isspace c = false.
Proof.
  unfold rstrip. rewrite rev_reverse, last_reverse. apply lstrip_head.
Qed.

Lemma rstrip_id (s : pystr) :
  (forall c, last s = Some c -> isspace c = false) -> rstrip s = s.
Proof.
  intros Hl. unfold rstrip. rewrite lstrip_id.
  - apply rev_involutive.
  - intros c. rewrite rev_reverse, head_reverse. apply Hl.
Qed.

Lemma rstrip_app_ws (x r : pystr) : whitespace_only r -> rstrip (x ++ r) = rstrip x.
Proof.
  intros Hr. unfold rstrip. rewrite rev_app_distr, lstrip_app_ws; [reflexivity|].
  unfold whitespace_only. rewrite rev_reverse. apply Forall_reverse. exact Hr.
Qed.

Lemma rstrip_head (s : pystr) (c : N) :
  head (rstrip s) = Some c -> head s = Some c.
Proof.
  destruct (rstrip_split s) as (r & E & _). intros Hc.
  rewrite E. destruct (rstrip s); [discriminate Hc | exact Hc].
Qed.

Lemma strip_trimmed (s : pystr) : trimmed (strip s).
Proof.
  unfold strip. split.
  - intros c Hc. apply rstrip_head in Hc. exact (lstrip_head s c Hc).
  - apply rstrip_last.
Qed.

Lemma strip_id (s : pystr) : trimmed s -> strip s = s.
Proof.
  intros [Hh Hl]. unfold strip. rewrite (lstrip_id s Hh). exact (rstrip_id s Hl).
Qed.

(** Whitespace around a text does not change what is left of it. *)
Lemma strip_padding (l c r : pystr) :
  whitespace_only l -> whitespace_only r -> strip (l ++ c ++ r) = strip c.
Proof.
  intros Hl Hr. unfold strip. rewrite (lstrip_app_ws l _ Hl).
  induction c as [|a c IH]; simpl.
  - rewrite (lstrip_whitespace_only r Hr). reflexivity.
  - destruct (isspace a); [exact IH|].
    exact (rstrip_app_ws (a :: c) r Hr).
Qed.

Lemma sub_ws_true_head (s : pystr) (c : N) :
  head (sub_ws true s) = Some c -> isspace c = false.
Proof.
  induction s as [|d s IH]; simpl; [discriminate|].
  destruct (isspace d) eqn:Hd; [exact IH|].
  simpl. intros E. injection E as <-. exact Hd.
Qed.

Lemma sub_ws_single_spaced (b : bool) (s : pystr) : single_spaced (sub_ws b s).
Proof.
  revert b. induction s as [|c s IH]; intros b; simpl; [exact I|].
  destruct (isspace c) eqn:Hc.
  - destruct b; [apply IH|]. simpl. split; [|apply IH].
    intros _. split; [reflexivity|].
    pose proof (sub_ws_true_head s) as Hh.
    destruct (sub_ws true s) as [|d t]; [exact I | exact (Hh d eq_refl)].
  - simpl. split; [|apply IH]. intros E. congruence.
Qed.

Lemma single_spaced_suffix (l t : pystr) : single_spaced (l ++ t) -> single_spaced t.
Proof. induction l as [|c l IH]; simpl; [auto | intros [_ Ht]; auto]. Qed.

Lemma single_spaced_prefix (t r : pystr) : single_spaced (t ++ r) -> single_spaced t.
Proof.
  induction t as [|c t IH]; simpl; [auto|].
  intros [Hc Ht]. split; [|exact (IH Ht)].
  intros E. destruct (Hc E) as [-> Hn]. split; [reflexivity|].
  destruct t; [exact I | exact Hn].
Qed.

Lemma strip_single_spaced (s : pystr) : single_spaced s -> single_spaced (strip s).
Proof.
  intros Hs. unfold strip.
  destruct (lstrip_split s) as (l & El & _).
  destruct (rstrip_split (lstrip s)) as (r & Er & _).
  rewrite El in Hs. apply single_spaced_suffix in Hs.
  rewrite Er in Hs. exact (single_spaced_prefix _ _ Hs).
Qed.

Lemma sub_ws_id (s : pystr) :
  single_spaced s ->
  sub_ws false s = s
  /\ ((forall c, head s = Some c -> isspace c = false) -> sub_ws true s = s).
Proof.
  induction s as [|c s IH]; simpl; [auto|].
  intros [Hc Hs]. destruct (IH Hs) as [IHf IHt].
  destruct (isspace c) eqn:Ec.
  - destruct (Hc eq_refl) as [-> Hn]. split.
    + f_equal. apply IHt. intros d Hd. destruct s; [discriminate Hd|].
      injection Hd as <-. exact Hn.
    + intros Hh. specialize (Hh _ eq_refl). vm_compute in Hh. discriminate Hh.
  - split; [|intros _]; f_equal; exact IHf.
Qed.

Lemma non_space_sub_ws (b : bool) (s : pystr) : non_space (sub_ws b s) = non_space s.
Proof.
  unfold non_space. revert b. induction s as [|c s IH]; intros b; simpl; [reflexivity|].
  destruct (isspace c) eqn:Hc.
  - rewrite (filter_cons_False _ c) by congruence.
    destruct b; [apply IH|].
    rewrite filter_cons_False by (vm_compute; congruence). apply IH.
  - rewrite !filter_cons_True by exact Hc. f_equal. apply IH.
Qed.

Lemma non_space_whitespace_only (l : pystr) : whitespace_only l -> non_space l = [].
Proof.
  intros Hl. apply filter_none. eapply Forall_impl; [exact Hl|].
  intros c Hc. simpl in *. congruence.
Qed.

Lemma non_space_strip (s : pystr) : non_space (strip s) = non_space s.
Proof.
  unfold strip.
  destruct (lstrip_split s) as (l & El & Hl).
  destruct (rstrip_split (lstrip s)) as (r & Er & Hr).
  assert (Happ : forall a b, non_space (a ++ b) = non_space a ++ non_space b).
  { intros a b. apply filter_app. }
  rewrite El at 2. rewrite Er at 2. rewrite !Happ.
  rewrite (non_space_whitespace_only l Hl), (non_space_whitespace_only r Hr).
  rewrite app_nil_r. reflexivity.
Qed.

Lemma sub_ws_length (b : bool) (s : pystr) : (length (sub_ws b s) <= length s)%nat.
Proof.
  revert b. induction s as [|c s IH]; intros b; simpl; [lia|].
  pose proof (IH true). pose proof (IH false).
  destruct (isspace c); [destruct b|]; simpl; lia.
Qed.

Lemma strip_length (s : pystr) : (length (strip s) <= length s)%nat.
Proof.
  unfold strip.
  destruct (lstrip_split s) as (l & El & _).
  destruct (rstrip_split (lstrip s)) as (r & Er & _).
  rewrite El at 2. rewrite Er at 2. rewrite !length_app. lia.
Qed.

(** [strip] goes through a replacement of characters that keeps
    whitespace whitespace and the rest the rest. *)
Lemma lstrip_map (f : N -> N) (s : pystr) :
  (forall c, isspace (f c) = isspace c) ->
  lstrip (List.map f s) = List.map f (lstrip s).
Proof.
  intros Hf. induction s as [|c s IH]; [reflexivity|].
  simpl. rewrite Hf. destruct (isspace c); [exact IH | reflexivity].
Qed.

Lemma strip_map (f : N -> N) (s : pystr) :
  (forall c, isspace (f c) = isspace c) ->
  strip (List.map f s) = List.map f (strip s).
Proof.
  intros Hf. unfold strip, rstrip.
  rewrite (lstrip_map f s Hf), <- map_rev, (lstrip_map f _ Hf), map_rev.
  reflexivity.
Qed.

Lemma nbsp_to_space_isspace (c : N) :
  isspace (if c =? c_nbsp then c_space else c) = isspace c.
Proof.
  destruct (c =? c_nbsp) eqn:E; [|reflexivity].
  apply N.eqb_eq in E. subst c. reflexivity.
Qed.

Lemma normalized_nbsp (c : pystr) :
  normalized (replace_char c_nbsp c_space c) = normalized c.
Proof.
  unfold normalized, replace_char.
  rewrite (strip_map _ c nbsp_to_space_isspace), List.map_map.
  apply List.map_ext. intros a.
  destruct (a =? c_nbsp) eqn:E; [reflexivity | rewrite E; reflexivity].
Qed.

Section CleanText.
Context `{PyLib}.

Lemma clean_text_clean (x : value) :
  single_spaced (_clean_text x) /\ trimmed (_clean_text x).
Proof.
  unfold _clean_text. split.
  - apply strip_single_spaced, sub_ws_single_spaced.
  - apply strip_trimmed.
Qed.

Lemma clean_text_of_clean (s : pystr) :
  single_spaced s -> trimmed s -> _clean_text (VStr s) = s.
Proof.
  intros Hs Ht. unfold _clean_text. simpl.
  rewrite (proj1 (sub_ws_id s Hs)). exact (strip_id s Ht).
Qed.

(** X1: whatever value it is given, [_clean_text] returns a text in which
    whitespace occurs only as single ASCII spaces between two other
    characters: no tab, newline or other whitespace character, no two
    spaces in a row, none at the start and none at the end. *)
Theorem clean_text_is_clean (x : value) :
  single_spaced (_clean_text x) /\ trimmed (_clean_text x).
Proof. exact (clean_text_clean x). Qed.

(** X2: cleaning twice is cleaning once, and the texts that cleaning
    leaves as they are are exactly the clean ones. *)
Theorem clean_text_idempotent :
  (forall x, _clean_text (VStr (_clean_text x)) = _clean_text x)
  /\ (forall s, _clean_text (VStr s) = s <-> single_spaced s /\ trimmed s).
Proof.
  split.
  - intros x. destruct (clean_text_clean x) as [Hs Ht].
    exact (clean_text_of_clean _ Hs Ht).
  - intros s. split.
    + intros E. rewrite <- E. apply clean_text_clean.
    + intros [Hs Ht]. exact (clean_text_of_clean s Hs Ht).
Qed.

(** X3: cleaning a string changes whitespace only: the characters that
    are not whitespace are kept, all of them and in their order, and the
    text does not get longer. *)
Theorem clean_text_keeps_characters (s : pystr) :
  non_space (_clean_text (VStr s)) = non_space s
  /\ (length (_clean_text (VStr s)) <= length s)%nat.
Proof.
  unfold _clean_text. simpl. split.
  - rewrite non_space_strip. apply non_space_sub_ws.
  - pose proof (strip_length (sub_ws false s)).
    pose proof (sub_ws_length false s). lia.
Qed.

Lemma parse_cell_normalized (c c' : pystr) :
  normalized c = normalized c' ->
  parse_manual_steps_cell (VStr c) = parse_manual_steps_cell (VStr c').
Proof.
  intros E. unfold parse_manual_steps_cell.
  fold (normalized c). fold (normalized c'). rewrite E.
  assert (Hs : strip c = [] <-> strip c' = []).
  { unfold normalized, replace_char in E.
    split; intros E0; rewrite E0 in E; simpl in E;
      [symmetry in E|]; apply map_eq_nil in E; exact E. }
  destruct (decide (strip c = [])) as [Hc|Hc];
    destruct (decide (strip c' = [])) as [Hc'|Hc']; try reflexivity;
    exfalso; tauto.
Qed.

(** X4: whitespace before and after the text of a cell makes no
    difference to what the parser returns or raises, and neither does
    writing a non-breaking space for a space or a space for a
    non-breaking space anywhere in it. *)
Theorem parse_cell_ignores_padding (l c r : pystr) :
  whitespace_only l -> whitespace_only r ->
  parse_manual_steps_cell (VStr (l ++ c ++ r)) = parse_manual_steps_cell (VStr c)
  /\ parse_manual_steps_cell (VStr (replace_char c_nbsp c_space c))
     = parse_manual_steps_cell (VStr c)
  /\ parse_manual_steps_cell (VStr (replace_char c_space c_nbsp c))
     = parse_manual_steps_cell (VStr c).
Proof.
  intros Hl Hr. split; [|split].
  - apply parse_cell_normalized. unfold normalized.
    rewrite (strip_padding l c r Hl Hr). reflexivity.
  - apply parse_cell_normalized, normalized_nbsp.
  - apply parse_cell_normalized.
    rewrite <- (normalized_nbsp (replace_char c_space c_nbsp c)),
            <- (normalized_nbsp c).
    f_equal. unfold replace_char. rewrite List.map_map.
    apply List.map_ext. intros a.
    destruct (a =? c_space) eqn:Ea.
    + apply N.eqb_eq in Ea. subst a. reflexivity.
    + reflexivity.
Qed.

End CleanText.

Lemma parse_cell_ignores_padding_witness :
  let cell := u "[{'index': 1, 'fields': {'Action': 'Open  app'}}]" in
  whitespace_only [c_nbsp; 10] /\ whitespace_only [c_space; 9]
  /\ parse_manual_steps_cell (H := ascii_lib) (VStr ([c_nbsp; 10] ++ cell ++ [c_space; 9]))
     = Ok [[(u "Step #", VInt 1); (u "Action", VStr (u "Open app"));
            (u "Data", VStr []); (u "Expected Result", VStr [])]].
Proof.
  intros cell.
  assert (Hl : whitespace_only [c_nbsp; 10]) by (repeat constructor).
  assert (Hr : whitespace_only [c_space; 9]) by (repeat constructor).
  split; [exact Hl|]. split; [exact Hr|].
  rewrite (proj1 (parse_cell_ignores_padding (H := ascii_lib) _ cell _ Hl Hr)).
  vm_compute. reflexivity.
Defined.

(** ** The Cell Parser: which cells give steps *)

Lemma for_each_all {A B : Type} (f : A -> res B) (g : A -> B) (l : list A) :
  Forall (fun a => f a = Ok (g a)) l -> for_each f l = Ok (g <$> l).
Proof.
  induction 1 as [|a l Ha _ IH]; [reflexivity|].
  simpl. unfold mbind, res_bind. rewrite Ha, IH. reflexivity.
Qed.

Lemma for_each_some_raise {A B : Type} (f : A -> res B) (e : exn) (l : list A) :
  (forall a, a ∈ l -> forall e', f a = Raise e' -> e' = e) ->
  Exists (fun a => exists e', f a = Raise e') l -> for_each f l = Raise e.
Proof.
  intros Hall Hex. apply Exists_exists in Hex as (a & Ha & e' & Hfa).
  apply (for_each_raise f l a e Ha Hall).
  rewrite Hfa. f_equal. exact (Hall a Ha e' Hfa).
Qed.

Section ParseShape.
Context `{PyLib}.

Lemma parse_item_cases (item : value) :
  (well_shaped item /\ parse_item item = Ok (step_of item))
  \/ (~ well_shaped item /\ parse_item item = Raise AttributeError).
Proof.
  destruct item as [| | | | | |d];
    try (right; split;
         [intros (d & E & _); discriminate E | apply parse_item_not_dict; reflexivity]).
  unfold parse_item, well_shaped, step_of. cbn [isinstance_dict get].
  destruct (dict_get (u "fields") d) as [f|] eqn:Ef.
  - destruct f as [| | | | | |fd];
      try (right; split;
           [intros (d' & E & Hf); injection E as <-;
            destruct (Hf _ Ef) as [fd E']; discriminate E'
           | reflexivity]).
    left. split; [|reflexivity].
    exists d. split; [reflexivity|]. intros f Hf. rewrite Ef in Hf.
    injection Hf as <-. eauto.
  - left. split; [|reflexivity].
    exists d. split; [reflexivity|]. intros f Hf. rewrite Ef in Hf. discriminate Hf.
Qed.

Lemma decode_nonempty (s : pystr) (v : value) : decode s = Some v -> s <> [].
Proof. intros E ->. vm_compute in E. discriminate E. Qed.

(** X5: for a cell whose text decodes to an array, the parser returns
    the steps of the elements, one per element and in their order, when
    every element is an object whose [fields] is absent or an object; in
    every other case, such as an element that is a number or a string, or
    an object whose [fields] is [null] or a list, it raises
    [AttributeError]. *)
Theorem parse_cell_of_array (c : pystr) (items : list value) :
  decode (normalized c) = Some (VList items) ->
  (Forall well_shaped items ->
   parse_manual_steps_cell (VStr c) = Ok (step_of <$> items))
  /\ (~ Forall well_shaped items ->
      parse_manual_steps_cell (VStr c) = Raise AttributeError).
Proof.
  intros Hd.
  assert (Hp : parse_manual_steps_cell (VStr c) = for_each parse_item items).
  { unfold parse_manual_steps_cell.
    destruct (decide (strip c = [])) as [Hs|Hs].
    - exfalso. apply (decode_nonempty _ _ Hd). unfold normalized. rewrite Hs. reflexivity.
    - fold (normalized c). rewrite Hd. reflexivity. }
  rewrite Hp. split.
  - intros Hall. apply for_each_all. eapply Forall_impl; [exact Hall|].
    intros item Hw. simpl.
    destruct (parse_item_cases item) as [[_ E] | [Hn _]]; [exact E | contradiction].
  - intros Hnot. apply for_each_some_raise.
    + intros item _ e' E. exact (parse_item_raises item e' E).
    + clear Hd Hp. induction items as [|item items IH].
      * exfalso. apply Hnot. constructor.
      * destruct (parse_item_cases item) as [[Hw _] | [_ E]].
        -- right. apply IH.
           intros Hall. apply Hnot. constructor; assumption.
        -- left. eauto.
Qed.

End ParseShape.

Lemma parse_cell_of_array_witness :
  let good := u "[{'index': 7, 'fields': {'Data': ' a  b '}}, {}]" in
  let bad := u "[{'index': 7}, {'fields': null}]" in
  parse_manual_steps_cell (H := ascii_lib) (VStr good)
  = Ok [[(u "Step #", VInt 7); (u "Action", VStr []); (u "Data", VStr (u "a b"));
         (u "Expected Result", VStr [])];
        [(u "Step #", VNone); (u "Action", VStr []); (u "Data", VStr []);
         (u "Expected Result", VStr [])]]
  /\ parse_manual_steps_cell (H := ascii_lib) (VStr bad) = Raise AttributeError.
Proof.
  intros good bad. split.
  - destruct (parse_cell_of_array (H := ascii_lib) good
                [VDict [(u "index", VInt 7);
                        (u "fields", VDict [(u "Data", VStr (u " a  b "))])];
                 VDict []]) as [Hok _]; [vm_compute; reflexivity|].
    rewrite Hok; [vm_compute; reflexivity|].
    repeat constructor.
    + eexists. split; [reflexivity|]. intros f Hf. vm_compute in Hf.
      injection Hf as <-. eauto.
    + eexists. split; [reflexivity|]. intros f Hf. discriminate Hf.
  - destruct (parse_cell_of_array (H := ascii_lib) bad
                [VDict [(u "index", VInt 7)]; VDict [(u "fields", VNone)]])
      as [_ Hbad]; [vm_compute; reflexivity|].
    apply Hbad. intros Hall. inversion Hall as [|? ? _ Hrest]; subst.
    inversion Hrest as [|? ? (d & E & Hf) _]; subst.
    injection E as <-. destruct (Hf VNone eq_refl) as [fd Efd]. discriminate Efd.
Defined.

(** ** The Column Resolver: more columns *)

Section ResolverAppend.
Context `{PyLib}.

(** X6: for a non-empty label, resolving over two lists of columns one
    after the other gives what the first list resolves to and, only when
    that is nothing, what the second resolves to: columns added at the
    end never change a column that was found. *)
Theorem find_col_app (cols more : list pystr) (needle : pystr) :
  needle <> [] ->
  find_col (cols ++ more) needle
  = str_or (find_col cols needle) (find_col more needle).
Proof.
  intros Hn. unfold find_col.
  induction cols as [|c cols IH]; [reflexivity|].
  simpl. destruct (contains (str_lower needle) (str_lower c)) eqn:Hc; [|exact IH].
  assert (Hne : c <> []).
  { apply (matches_nonempty needle c Hn). apply contains_substring. exact Hc. }
  destruct c; [contradiction | reflexivity].
Qed.

End ResolverAppend.

Lemma find_col_app_witness :
  u "Summary" <> []
  /\ find_col (H := ascii_lib) ([u "Issue key"; u "Summary"] ++ [u "Epic summary"])
              (u "Summary") = u "Summary"
  /\ find_col (H := ascii_lib) ([u "Issue key"] ++ [u "Epic summary"]) (u "Summary")
     = u "Epic summary".
Proof.
  assert (Hn : u "Summary" <> []) by discriminate.
  split; [exact Hn|].
  rewrite !(find_col_app (H := ascii_lib) _ _ _ Hn).
  split; vm_compute; reflexivity.
Defined.

(** ** The Flattener: what the table holds *)

Section FlatContents.
Context `{PyLib}.

Lemma row_dicts_values (cols : list pystr) (cs ck csum : pystr) (r : list cell)
    (ds : list dict) :
  row_dicts cols cs ck csum r = Ok ds ->
  exists steps,
    parse_manual_steps_cell (r_get cols r cs) = Ok steps
    /\ (fun d => d.*2) <$> ds
       = record_rows (r_get cols r ck) (r_get cols r csum) steps.
Proof.
  intros E. destruct (row_dicts_ok _ _ _ _ _ _ E) as (steps & Ep & ->).
  exists steps. split; [exact Ep|].
  destruct steps as [|s steps]; [reflexivity|].
  unfold record_rows. rewrite <- list_fmap_compose. reflexivity.
Qed.

Lemma row_dicts_of_steps (cols : list pystr) (cs ck csum : pystr) (r : list cell)
    (steps : list dict) :
  parse_manual_steps_cell (r_get cols r cs) = Ok steps ->
  exists ds, row_dicts cols cs ck csum r = Ok ds.
Proof.
  intros Ep. unfold row_dicts, mbind, res_bind. rewrite Ep.
  destruct steps; eauto.
Qed.

(** The values of the emitted dicts, record by record. *)
Lemma flat_rows_values (df : RawFrame) (cs ck csum : pystr) (rows : list dict) :
  flat_rows df cs ck csum = Ok rows ->
  exists per_record,
    Forall2 (fun r steps =>
               parse_manual_steps_cell (r_get (raw_columns df) r cs) = Ok steps)
            (raw_data df) per_record
    /\ (fun d => d.*2) <$> rows
       = concat (zip_with (fun r steps =>
                             record_rows (r_get (raw_columns df) r ck)
                                         (r_get (raw_columns df) r csum) steps)
                          (raw_data df) per_record).
Proof.
  unfold flat_rows, mbind at 1, res_bind at 1.
  destruct (for_each _ (raw_data df)) as [per_row|] eqn:Ef; [|discriminate].
  intros E. injection E as <-.
  apply for_each_Forall2 in Ef.
  induction Ef as [|r ds rs per_row Hr _ (per_record & Hall & Hvals)].
  - exists []. split; [constructor | reflexivity].
  - destruct (row_dicts_values _ _ _ _ _ _ Hr) as (steps & Ep & Hds).
    exists (steps :: per_record). split; [constructor; assumption|].
    cbn [zip_with]. rewrite !concat_cons, fmap_app, Hds, Hvals. reflexivity.
Qed.

Lemma flat_rows_of_steps (df : RawFrame) (cs ck csum : pystr) :
  Forall (fun r => exists steps,
              parse_manual_steps_cell (r_get (raw_columns df) r cs) = Ok steps)
         (raw_data df) ->
  exists rows, flat_rows df cs ck csum = Ok rows.
Proof.
  intros Hall. unfold flat_rows, mbind at 1, res_bind at 1.
  assert (Hf : exists per_row,
             for_each (row_dicts (raw_columns df) cs ck csum) (raw_data df) = Ok per_row).
  { induction Hall as [|r rs (steps & Ep) _ (per_row & IH)]; [exists []; reflexivity|].
    destruct (row_dicts_of_steps _ cs ck csum r steps Ep) as [ds Eds].
    exists (ds :: per_row). simpl. unfold mbind, res_bind. rewrite Eds, IH. reflexivity. }
  destruct Hf as [per_row ->]. eauto.
Qed.

Lemma record_rows_keys (key summ : value) (steps : list dict) :
  cell_at 0 <$> record_rows key summ steps
  = replicate (Nat.max 1 (length steps)) key.
Proof.
  destruct steps as [|s steps]; [reflexivity|].
  unfold record_rows. rewrite <- list_fmap_compose.
  change (Nat.max 1 (length (s :: steps))) with (length (s :: steps)).
  generalize (s :: steps) as l. intros l.
  induction l as [|x l IH]; [reflexivity | simpl; f_equal; exact IH].
Qed.

Lemma forallb_replicate {A : Type} (f : A -> bool) (n : nat) (x : A) :
  forallb f (replicate (S n) x) = f x.
Proof.
  induction n as [|n IH]; simpl; [apply andb_true_r|].
  simpl in IH. rewrite IH. destruct (f x); reflexivity.
Qed.

(** The keys of the emitted rows are missing exactly when the key of a
    record is. *)
Lemma emitted_keys_notna (cols : list pystr) (ck csum : pystr)
    (rs : list (list cell)) (per_record : list (list dict)) :
  length per_record = length rs ->
  forallb notna
    (cell_at 0 <$> concat (zip_with (fun r steps =>
                                       record_rows (r_get cols r ck)
                                                   (r_get cols r csum) steps)
                                    rs per_record))
  = forallb (fun r => notna (r_get cols r ck)) rs.
Proof.
  revert per_record. induction rs as [|r rs IH]; intros [|steps per_record] Hl;
    try discriminate Hl; [reflexivity|].
  injection Hl as Hl. cbn [zip_with]. rewrite concat_cons, fmap_app, forallb_app.
  rewrite (IH per_record Hl), record_rows_keys. cbn [forallb]. f_equal.
  destruct (Nat.max 1 (length steps)) as [|n] eqn:En; [lia|].
  apply forallb_replicate.
Qed.

Lemma tail_numbered (cases : list value) (vals : list (list value)) :
  length cases = length vals -> tail <$> zip_with cons cases vals = vals.
Proof.
  revert vals. induction cases as [|c cases IH]; intros [|v vals] Hl;
    try discriminate Hl; [reflexivity|].
  injection Hl as Hl. cbn [zip_with fmap list_fmap tail]. f_equal. exact (IH vals Hl).
Qed.

Lemma numbered_lengths (cases : list value) (vals : list (list value)) :
  length cases = length vals ->
  Forall (fun r => length r = 6%nat) vals ->
  Forall (fun row => length row = 7%nat) (zip_with cons cases vals).
Proof.
  intros Hl Hv. revert cases Hl.
  induction Hv as [|v vals Hv' _ IH]; intros [|c cases] Hl;
    try discriminate Hl; [constructor|].
  injection Hl as Hl. cbn [zip_with].
  constructor; [simpl; lia | exact (IH cases Hl)].
Qed.

(** What [build_flat] returns, when it returns. *)
Lemma build_flat_data (df : RawFrame) (cs ck csum : pystr) (flat : DataFrame) :
  build_flat df cs ck csum = Ok flat ->
  exists rows,
    flat_rows df cs ck csum = Ok rows
    /\ columns flat = flat_columns
    /\ tail <$> data flat = (fun d => d.*2) <$> rows
    /\ Forall (fun row => length row = 7%nat) (data flat).
Proof.
  rewrite build_flat_cases.
  destruct (flat_rows df cs ck csum) as [rows|e] eqn:Er; [|discriminate].
  destruct (flat_rows_count _ _ _ _ _ Er) as (_ & _ & _ & _ & Hk).
  destruct rows as [|d rows]; [discriminate|].
  set (all := d :: rows) in *. cbv zeta.
  set (vals := (fun d => d.*2) <$> all).
  set (keys := cell_at 0 <$> vals).
  set (cases := series_map (case_map (unique keys)) keys).
  destruct (forallb notna keys); [|discriminate].
  intros E. injection E as <-.
  assert (Hlc : length cases = length vals).
  { unfold cases, series_map, keys. rewrite !length_fmap. reflexivity. }
  assert (Hv : Forall (fun r => length r = 6%nat) vals).
  { apply Forall_fmap. eapply Forall_impl; [exact Hk|].
    intros d' Hd'. apply dict_values_length. exact Hd'. }
  exists all. split; [reflexivity|]. split; [reflexivity|].
  split; [exact (tail_numbered cases vals Hlc)|].
  exact (numbered_lengths cases vals Hlc Hv).
Qed.

(** X7: when [build_flat] returns, the table has the seven columns in
    their fixed order and seven cells in every row, and after the case
    number its rows are, record by record in table order, the rows of the
    record, one for each step in the order of the steps, or one when the
    record has no step: the key and the summary as read, then the step
    number, missing exactly when the step has no number or the record no
    step, then the three texts of the step, or three empty texts. *)
Theorem build_flat_contents (df : RawFrame) (cs ck csum : pystr) (flat : DataFrame) :
  build_flat df cs ck csum = Ok flat ->
  columns flat = flat_columns
  /\ Forall (fun row => length row = 7%nat) (data flat)
  /\ exists per_record,
       Forall2 (fun r steps =>
                  parse_manual_steps_cell (r_get (raw_columns df) r cs) = Ok steps)
               (raw_data df) per_record
       /\ Forall2 kept_as
            (concat (zip_with (fun r steps =>
                                 record_rows (r_get (raw_columns df) r ck)
                                             (r_get (raw_columns df) r csum) steps)
                              (raw_data df) per_record))
            (tail <$> data flat).
Proof.
  intros E. destruct (build_flat_data _ _ _ _ _ E) as (rows & Er & Hc & Ht & Hl).
  split; [exact Hc|]. split; [exact Hl|].
  destruct (flat_rows_values _ _ _ _ _ Er) as (per_record & Hall & Hvals).
  exists per_record. split; [exact Hall|]. rewrite Ht, Hvals.
  apply Forall_Forall2_diag, Forall_forall. intros row _.
  split; [reflexivity|]. split; [intros j _; reflexivity | reflexivity].
Qed.

(** X8: [build_flat] raises [AttributeError] when the steps cell of some
    record makes the parser raise; when no cell does, it raises [KeyError]
    on a table without records, [ValueError] when the key of some record
    is missing, and returns a table in every other case. *)
Theorem build_flat_outcome (df : RawFrame) (cs ck csum : pystr) :
  let cols := raw_columns df in
  (Exists (fun r => parse_manual_steps_cell (r_get cols r cs) = Raise AttributeError)
          (raw_data df) ->
   build_flat df cs ck csum = Raise AttributeError)
  /\ (Forall (fun r => exists steps,
                  parse_manual_steps_cell (r_get cols r cs) = Ok steps)
             (raw_data df) ->
      (raw_data df = [] -> build_flat df cs ck csum = Raise KeyError)
      /\ (raw_data df <> [] ->
          Exists (fun r => isna (r_get cols r ck) = true) (raw_data df) ->
          build_flat df cs ck csum = Raise ValueError)
      /\ (raw_data df <> [] ->
          Forall (fun r => notna (r_get cols r ck) = true) (raw_data df) ->
          exists flat, build_flat df cs ck csum = Ok flat)).
Proof.
  intros cols. split.
  - intros Hex. apply Exists_exists in Hex as (r & Hr & Hp).
    exact (build_flat_bad_cell df cs ck csum r Hr Hp).
  - intros Hall.
    destruct (flat_rows_of_steps df cs ck csum Hall) as [rows Er].
    destruct (flat_rows_count _ _ _ _ _ Er) as (counts & _ & Hlc & Hlr & _).
    destruct (flat_rows_values _ _ _ _ _ Er) as (per_record & Hper & Hvals).
    pose proof (Forall2_length _ _ _ Hper) as Hlp.
    pose proof (emitted_keys_notna (raw_columns df) ck csum (raw_data df) per_record
                  (eq_sym Hlp)) as Hkeys.
    rewrite <- Hvals in Hkeys.
    rewrite build_flat_cases, Er.
    destruct (sum_list_max_1 counts) as [Hge _].
    split; [|split].
    + intros Hnil. rewrite Hnil in Hlc. destruct counts; [|discriminate Hlc].
      destruct rows; [reflexivity | discriminate Hlr].
    + intros Hne Hex. destruct rows as [|d rows].
      { exfalso. apply Hne, nil_length_inv. simpl in Hlr. lia. }
      cbv zeta. rewrite Hkeys.
      replace (forallb _ (raw_data df)) with false; [reflexivity|].
      symmetry. apply not_true_is_false. intros Ht.
      apply Exists_exists in Hex as (r & Hr & Hna).
      pose proof (proj1 (forallb_elem_of _ _) Ht r Hr) as Hn.
      unfold notna in Hn. fold cols in Hn. rewrite Hna in Hn. discriminate Hn.
    + intros Hne Hnot. destruct rows as [|d rows].
      { exfalso. apply Hne, nil_length_inv. simpl in Hlr. lia. }
      cbv zeta. rewrite Hkeys.
      replace (forallb _ (raw_data df)) with true; [eauto|].
      symmetry. apply forallb_elem_of. intros r Hr.
      rewrite Forall_forall in Hnot. exact (Hnot r Hr).
Qed.

(** X9: when [build_flat] returns, it has emitted a row for every
    record, and more than one only for a record with several steps:
    the number of rows is the sum over the records of the number of steps,
    counted as one for a record without steps, so that it is at least the
    number of records, and equal to it exactly when no record has more
    than one step. *)
Theorem build_flat_row_count (df : RawFrame) (cs ck csum : pystr) (flat : DataFrame) :
  build_flat df cs ck csum = Ok flat ->
  exists counts,
    step_counts df cs = Ok counts
    /\ length counts = length (raw_data df)
    /\ length (data flat) = sum_list (Nat.max 1 <$> counts)
    /\ (length (raw_data df) <= length (data flat))%nat
    /\ (length (data flat) = length (raw_data df)
        <-> Forall (fun n => (n <= 1)%nat) counts).
Proof. exact (build_flat_count df cs ck csum flat). Qed.

End FlatContents.

Lemma build_flat_contents_witness :
  let df := {| raw_columns := [u "Issue key"; u "Summary"; u "Manual Test Steps"];
               raw_data := [[Str (u "T-1"); Str (u " Login ");
                             Str (u "[{'index': 1, 'fields': {'Action': 'Open'}}, {}]")];
                            [Str (u "T-2"); NaN; NaN]] |} in
  exists flat,
    build_flat (H := ascii_lib) df (u "Manual Test Steps") (u "Issue key") (u "Summary")
    = Ok flat
    /\ Forall2 kept_as
         [[VStr (u "T-1"); VStr (u " Login "); VInt 1; VStr (u "Open"); VStr []; VStr []];
          [VStr (u "T-1"); VStr (u " Login "); VNone; VStr []; VStr []; VStr []];
          [VStr (u "T-2"); VFloat FNan; VNone; VStr []; VStr []; VStr []]]
         (tail <$> data flat)
    /\ columns flat = flat_columns
    /\ Forall (fun row => length row = 7%nat) (data flat).
Proof.
  intros df.
  destruct (build_flat (H := ascii_lib) df (u "Manual Test Steps") (u "Issue key")
                       (u "Summary")) as [flat|e] eqn:E;
    [|vm_compute in E; discriminate E].
  destruct (build_flat_contents (H := ascii_lib) df _ _ _ flat E)
    as (Hc & Hl & per_record & Hall & Hrows).
  exists flat. split; [reflexivity|]. split; [|split; assumption].
  inversion Hall as [|r steps rs pr H1 Hall' Hr Hpr]; subst.
  inversion Hall' as [|r' steps' rs' pr' H2 Hall'' Hr' Hpr']; subst.
  inversion Hall''; subst.
  vm_compute in H1. injection H1 as <-.
  vm_compute in H2. injection H2 as <-.
  exact Hrows.
Defined.

Lemma build_flat_outcome_witness :
  let cols := [u "Issue key"; u "Summary"; u "Manual Test Steps"] in
  let df := {| raw_columns := cols;
               raw_data := [[Str (u "T-1"); Str (u "Login"); Str (u "[{}]")];
                            [Str (u "T-2"); NaN; NaN]] |} in
  (exists flat,
      build_flat (H := ascii_lib) df (u "Manual Test Steps") (u "Issue key") (u "Summary")
      = Ok flat)
  /\ build_flat (H := ascii_lib) df (u "Manual Test Steps") (u "Summary") (u "Issue key")
     = Raise ValueError
  /\ build_flat (H := ascii_lib)
       {| raw_columns := cols; raw_data := [[Str (u "T-1"); NaN; Str (u "['x']")]] |}
       (u "Manual Test Steps") (u "Issue key") (u "Summary")
     = Raise AttributeError.
Proof.
  intros cols df.
  assert (Hall : Forall (fun r => exists steps,
                             parse_manual_steps_cell (H := ascii_lib)
                               (r_get (raw_columns df) r (u "Manual Test Steps"))
                             = Ok steps)
                        (raw_data df)).
  { repeat constructor; eexists; vm_compute; reflexivity. }
  split; [|split].
  - destruct (build_flat_outcome (H := ascii_lib) df (u "Manual Test Steps")
                (u "Issue key") (u "Summary")) as [_ Hok].
    destruct (Hok Hall) as (_ & _ & Hret).
    apply Hret; [discriminate|]. repeat constructor.
  - destruct (build_flat_outcome (H := ascii_lib) df (u "Manual Test Steps")
                (u "Summary") (u "Issue key")) as [_ Hok].
    destruct (Hok Hall) as (_ & Hval & _).
    apply Hval; [discriminate|]. right. left. reflexivity.
  - destruct (build_flat_outcome (H := ascii_lib)
                {| raw_columns := cols;
                   raw_data := [[Str (u "T-1"); NaN; Str (u "['x']")]] |}
                (u "Manual Test Steps") (u "Issue key") (u "Summary")) as [Hbad _].
    apply Hbad. left. vm_compute. reflexivity.
Defined.

Lemma build_flat_row_count_witness :
  let df := {| raw_columns := [u "Issue key"; u "Summary"; u "Manual Test Steps"];
               raw_data := [[Str (u "T-1"); Str (u "Login"); Str (u "[{}, {}, {}]")];
                            [Str (u "T-2"); NaN; NaN];
                            [Str (u "T-3"); NaN; Str (u "[{}]")]] |} in
  exists flat,
    build_flat (H := ascii_lib) df (u "Manual Test Steps") (u "Issue key") (u "Summary")
    = Ok flat
    /\ length (data flat) = 5%nat
    /\ exists counts,
         step_counts (H := ascii_lib) df (u "Manual Test Steps") = Ok counts
         /\ length counts = length (raw_data df)
         /\ length (data flat) = sum_list (Nat.max 1 <$> counts)
         /\ (length (raw_data df) <= length (data flat))%nat
         /\ (length (data flat) = length (raw_data df)
             <-> Forall (fun n => (n <= 1)%nat) counts).
Proof.
  intros df.
  destruct (build_flat (H := ascii_lib) df (u "Manual Test Steps") (u "Issue key")
                       (u "Summary")) as [flat|e] eqn:E;
    [|vm_compute in E; discriminate E].
  exists flat. split; [reflexivity|].
  split; [|exact (build_flat_row_count (H := ascii_lib) df _ _ _ flat E)].
  vm_compute in E. injection E as <-. reflexivity.
Defined.

(** ** Case numbers: the numbers in use *)

Lemma filter_Forall {A : Type} (P : A -> Prop) `{forall x, Decision (P x)} (l : list A) :
  Forall P l -> filter P l = l.
Proof.
  induction 1 as [|x l Hx _ IH]; [reflexivity|].
  rewrite filter_cons_True by exact Hx. f_equal. exact IH.
Qed.

Lemma map_get_lookup (g : nat -> Z) (l : list value) (n : nat) (k : value) :
  NoDup l -> l !! n = Some k ->
  map_get k (imap (fun i x => (x, g i)) l) = Some (g n).
Proof.
  intros Hnd Hk.
  pose proof (lookup_lt_Some _ _ _ Hk) as Hlt.
  rewrite <- (take_drop_middle l n k Hk) in Hnd |- *.
  rewrite map_get_imap.
  - rewrite length_take. f_equal. f_equal. lia.
  - apply NoDup_app in Hnd as (_ & Hdis & _).
    intros Hin. apply (Hdis k Hin). apply elem_of_cons. left. reflexivity.
Qed.

Lemma map_get_Some (g : nat -> Z) (l : list value) (k : value) (z : Z) :
  map_get k (imap (fun i x => (x, g i)) l) = Some z ->
  exists n, l !! n = Some k /\ z = g n.
Proof.
  revert g. induction l as [|x l IH]; intros g; simpl; [discriminate|].
  destruct (decide (x = k)) as [->|Hne].
  - intros E. injection E as <-. exists 0%nat. split; reflexivity.
  - intros E. destruct (IH (g ∘ S) E) as (n & Hn & ->).
    exists (S n). split; [exact Hn | reflexivity].
Qed.

Section CaseNumbersInUse.
Implicit Types keys : list value.

(** The case number of a row, on a key column without missing values:
    the position of its key among the distinct keys, counted from one. *)
Lemma case_of_row keys (i : nat) (k : value) :
  Forall (fun x => notna x = true) keys -> keys !! i = Some k ->
  exists n, unique keys !! n = Some k
            /\ series_map (case_map (unique keys)) keys !! i
               = Some (VInt (Z.of_nat n + 1)).
Proof.
  intros Hall Hk.
  assert (Hin : k ∈ unique keys).
  { apply elem_of_unique, list_elem_of_lookup. eauto. }
  apply list_elem_of_lookup in Hin as [n Hn].
  exists n. split; [exact Hn|].
  rewrite (series_map_lookup _ _ _ _ Hk). unfold case_map.
  rewrite filter_Forall.
  - rewrite (map_get_lookup (fun i => (Z.of_nat i + 1)%Z) _ n k (NoDup_unique keys) Hn).
    reflexivity.
  - apply Forall_forall. intros x Hx. apply (proj1 (elem_of_unique _ _)) in Hx.
    rewrite Forall_forall in Hall. exact (Hall x Hx).
Qed.

Lemma unique_take keys (j : nat) :
  exists rest, unique keys = unique (take j keys) ++ rest.
Proof.
  exists (filter (fun y => y ∉ take j keys) (unique (skipn j keys))).
  rewrite <- unique_app, take_drop. reflexivity.
Qed.

Lemma case_numbers_in_use keys :
  Forall (fun x => notna x = true) keys ->
  let cases := series_map (case_map (unique keys)) keys in
  let m := Z.of_nat (length (unique keys)) in
  (forall i, (i < length keys)%nat ->
             exists z, cases !! i = Some (VInt z) /\ (1 <= z <= m)%Z)
  /\ (forall z, (1 <= z <= m)%Z -> exists i, cases !! i = Some (VInt z))
  /\ (forall i j k k', keys !! i = Some k -> keys !! j = Some k' ->
                       cases !! i = cases !! j -> k = k')
  /\ (forall i z, cases !! i = Some (VInt z) -> (1 < z)%Z ->
                  exists j, (j < i)%nat /\ cases !! j = Some (VInt (z - 1))).
Proof.
  intros Hall cases m. split; [|split; [|split]].
  - intros i Hi. destruct (lookup_lt_is_Some_2 keys i Hi) as [k Hk].
    destruct (case_of_row keys i k Hall Hk) as (n & Hn & Hc).
    exists (Z.of_nat n + 1)%Z. split; [exact Hc|].
    pose proof (lookup_lt_Some _ _ _ Hn). unfold m. lia.
  - intros z Hz.
    destruct (lookup_lt_is_Some_2 (unique keys) (Z.to_nat (z - 1))) as [k Hk];
      [unfold m in Hz; lia|].
    assert (Hin : k ∈ keys).
    { apply elem_of_unique, list_elem_of_lookup. eauto. }
    apply list_elem_of_lookup in Hin as [i Hi]. exists i.
    destruct (case_of_row keys i k Hall Hi) as (n & Hn & Hc).
    assert (n = Z.to_nat (z - 1)) as ->.
    { exact (NoDup_lookup _ _ _ _ (NoDup_unique keys) Hn Hk). }
    unfold cases. rewrite Hc. f_equal. f_equal. lia.
  - intros i j k k' Hi Hj E.
    destruct (case_of_row keys i k Hall Hi) as (n & Hn & Hc).
    destruct (case_of_row keys j k' Hall Hj) as (n' & Hn' & Hc').
    unfold cases in E. rewrite Hc, Hc' in E. injection E as E.
    assert (n = n') as -> by lia. congruence.
  - intros i z Hc Hz.
    assert (Hi : (i < length keys)%nat).
    { apply lookup_lt_Some in Hc. unfold cases, series_map in Hc.
      rewrite length_fmap in Hc. exact Hc. }
    destruct (lookup_lt_is_Some_2 keys i Hi) as [k Hk].
    assert (Hn : notna k = true).
    { rewrite Forall_forall in Hall. apply Hall, list_elem_of_lookup. eauto. }
    destruct (proj1 (numbering_row keys i k Hk) Hn) as (j0 & Hj0 & _ & _ & Hrank).
    fold cases in Hrank. rewrite Hc in Hrank. injection Hrank as Hrank.
    assert (Hsub : Forall (fun x => notna x = true) (unique (take j0 keys))).
    { apply Forall_forall. intros x Hx. apply (proj1 (elem_of_unique _ _)) in Hx.
      rewrite Forall_forall in Hall. apply Hall.
      apply elem_of_take in Hx as (? & Hx & _). apply list_elem_of_lookup. eauto. }
    rewrite (filter_Forall _ _ Hsub) in Hrank.
    destruct (lookup_lt_is_Some_2 (unique (take j0 keys)) (Z.to_nat (z - 2)))
      as [x Hx]; [lia|].
    assert (Hxin : x ∈ take j0 keys).
    { apply elem_of_unique, list_elem_of_lookup. eauto. }
    apply elem_of_take in Hxin as (j & Hj & Hlt).
    exists j. split; [lia|].
    destruct (case_of_row keys j x Hall Hj) as (n & Hn' & Hcj).
    destruct (unique_take keys j0) as [rest Hrest].
    assert (n = Z.to_nat (z - 2)) as ->.
    { apply (NoDup_lookup _ _ _ _ (NoDup_unique keys) Hn').
      rewrite Hrest. apply lookup_app_l_Some. exact Hx. }
    unfold cases. rewrite Hcj. f_equal. f_equal. lia.
Qed.

End CaseNumbersInUse.

Section CaseNumbersOfTable.
Context `{PyLib}.

(** X10: in the table [build_flat] returns, with [m] the number of
    distinct keys, every case number is one of 1, ..., [m] and each of
    these is the number of some row; rows with different keys have
    different numbers; and the numbers come in order: a row numbered more
    than 1 comes after a row with the number just below. *)
Theorem case_numbers_in_order (df : RawFrame) (cs ck csum : pystr) (flat : DataFrame) :
  build_flat df cs ck csum = Ok flat ->
  exists keys cases,
    getitem flat (u "Issue key") = Ok keys
    /\ getitem flat (u "Case #") = Ok cases
    /\ length cases = length keys
    /\ (forall i, (i < length keys)%nat ->
          exists z, cases !! i = Some (VInt z)
                    /\ (1 <= z <= Z.of_nat (length (unique keys)))%Z)
    /\ (forall z, (1 <= z <= Z.of_nat (length (unique keys)))%Z ->
          exists i, cases !! i = Some (VInt z))
    /\ (forall i j k k', keys !! i = Some k -> keys !! j = Some k' ->
          cases !! i = cases !! j -> k = k')
    /\ (forall i z, cases !! i = Some (VInt z) -> (1 < z)%Z ->
          exists j, (j < i)%nat /\ cases !! j = Some (VInt (z - 1))).
Proof.
  intros E.
  destruct (build_flat_ok _ _ _ _ _ E) as (rows & _ & _ & _ & _ & keys & Hk & _ & Hn & Hc).
  exists keys, (series_map (case_map (unique keys)) keys).
  split; [exact Hk|]. split; [exact Hc|].
  split; [unfold series_map; apply length_fmap|].
  apply case_numbers_in_use.
  apply Forall_forall. intros x Hx. exact (proj1 (forallb_elem_of _ _) Hn x Hx).
Qed.

End CaseNumbersOfTable.

Lemma case_numbers_in_order_witness :
  let row (k : pystr) := [Str k; NaN; NaN] in
  let df := {| raw_columns := [u "Issue key"; u "Summary"; u "Manual Test Steps"];
               raw_data := [row (u "B"); row (u "A"); row (u "B"); row (u "C")] |} in
  exists flat keys cases,
    build_flat (H := ascii_lib) df (u "Manual Test Steps") (u "Issue key") (u "Summary")
    = Ok flat
    /\ getitem flat (u "Issue key") = Ok keys
    /\ getitem flat (u "Case #") = Ok cases
    /\ cases = [VInt 1; VInt 2; VInt 1; VInt 3]
    /\ (forall z, (1 <= z <= Z.of_nat (length (unique keys)))%Z ->
          exists i, cases !! i = Some (VInt z)).
Proof.
  intros row df.
  destruct (build_flat (H := ascii_lib) df (u "Manual Test Steps") (u "Issue key")
                       (u "Summary")) as [flat|e] eqn:E;
    [|vm_compute in E; discriminate E].
  destruct (case_numbers_in_order (H := ascii_lib) df _ _ _ flat E)
    as (keys & cases & Hk & Hc & _ & _ & Hsurj & _).
  exists flat, keys, cases. split; [reflexivity|]. split; [exact Hk|].
  split; [exact Hc|]. split; [|exact Hsurj].
  vm_compute in E. injection E as <-. vm_compute in Hc. injection Hc as <-.
  reflexivity.
Defined.

(** ** The Collapse Transform: what it keeps *)

Lemma col_pos_lookup (cols : list pystr) (c : pystr) (j : nat) :
  col_pos cols c = Some j -> cols !! j = Some c.
Proof.
  revert j. induction cols as [|c' cols IH]; intros j; simpl; [discriminate|].
  destruct (decide (c' = c)) as [->|Hne].
  - intros E. injection E as <-. reflexivity.
  - destruct (col_pos cols c) as [j'|]; simpl; [|discriminate].
    intros E. injection E as <-. simpl. exact (IH j' eq_refl).
Qed.

Lemma DataFrame_eq (a b : DataFrame) :
  columns a = columns b -> data a = data b -> a = b.
Proof. destruct a, b. simpl. intros -> ->. reflexivity. Qed.

(** [collapse_repeats] returns its table when it is empty or lacks the
    group column; otherwise each row is blanked or not by its key. *)
Lemma collapse_repeats_cases (df : DataFrame) (group_col : pystr)
    (cols_to_blank : list pystr) :
  (empty df = true /\ collapse_repeats df group_col cols_to_blank = df)
  \/ (exists e, getitem df group_col = Raise e
                /\ collapse_repeats df group_col cols_to_blank = df)
  \/ exists keys,
       empty df = false /\ getitem df group_col = Ok keys
       /\ forall i,
            data (collapse_repeats df group_col cols_to_blank) !! i
            = if repeats keys i
              then blank_row (columns df) cols_to_blank <$> data df !! i
              else data df !! i.
Proof.
  destruct (empty df) eqn:He.
  { left. split; [reflexivity|]. unfold collapse_repeats. rewrite He. reflexivity. }
  destruct (getitem df group_col) as [keys|e] eqn:Hk.
  - right. right. exists keys. split; [reflexivity|]. split; [reflexivity|].
    intros i. exact (collapse_repeats_rows df group_col cols_to_blank keys i He Hk).
  - right. left. exists e. split; [reflexivity|].
    unfold collapse_repeats. rewrite Hk.
    destruct (_ || _); reflexivity.
Qed.

Lemma cell_at_blank_row (cols cols_to_blank : list pystr) (row : list value) (j : nat) :
  to_blank cols cols_to_blank j = false ->
  cell_at j (blank_row cols cols_to_blank row) = cell_at j row.
Proof.
  intros Hb. unfold cell_at.
  destruct (row !! j) as [x|] eqn:Hx.
  - rewrite (blank_row_lookup _ _ _ _ _ Hx), Hb. reflexivity.
  - unfold blank_row. rewrite list_lookup_imap, Hx. reflexivity.
Qed.

(** The group column after [collapse_repeats]. *)
Lemma collapse_repeats_keys (df : DataFrame) (group_col : pystr)
    (cols_to_blank : list pystr) (keys : list value) :
  getitem df group_col = Ok keys ->
  getitem (collapse_repeats df group_col cols_to_blank) group_col
  = Ok (if empty df then keys
        else collapsed_keys (bool_decide (group_col ∈ cols_to_blank)) keys).
Proof.
  intros Hk.
  destruct (collapse_repeats_cases df group_col cols_to_blank)
    as [[He E] | [(e & Hr & _) | (keys' & He & Hk' & Hrows)]].
  { rewrite E, Hk, He. reflexivity. }
  { rewrite Hk in Hr. discriminate Hr. }
  rewrite He. rewrite Hk in Hk'. injection Hk' as <-.
  unfold getitem in *.
  rewrite (proj1 (collapse_repeats_shape df group_col cols_to_blank)).
  destruct (col_pos (columns df) group_col) as [j|] eqn:Hj; [|discriminate Hk].
  injection Hk as Hk. f_equal. apply list_eq. intros i.
  unfold collapsed_keys. rewrite list_lookup_fmap, list_lookup_imap, Hrows.
  rewrite <- Hk at 2. rewrite list_lookup_fmap.
  pose proof (col_pos_lookup _ _ _ Hj) as Hc.
  destruct (data df !! i) as [row|] eqn:Hrow;
    [|destruct (repeats keys i); reflexivity].
  destruct (repeats keys i) eqn:Hr; simpl; [|reflexivity].
  destruct (bool_decide (group_col ∈ cols_to_blank)) eqn:Hb; simpl.
  - apply repeats_true in Hr as (k & Hki & Hn & _).
    rewrite <- Hk, list_lookup_fmap, Hrow in Hki. simpl in Hki. injection Hki as Hki.
    unfold cell_at in *. destruct (row !! j) as [x|] eqn:Hx.
    + rewrite (blank_row_lookup _ _ _ _ _ Hx). unfold to_blank. rewrite Hc, Hb.
      reflexivity.
    + simpl in Hki. subst k. discriminate Hn.
  - f_equal. apply cell_at_blank_row. unfold to_blank. rewrite Hc. exact Hb.
Qed.

Lemma empty_shape (a b : DataFrame) :
  columns a = columns b -> length (data a) = length (data b) -> empty a = empty b.
Proof.
  unfold empty. intros -> Hl.
  destruct (data a), (data b); try discriminate Hl; reflexivity.
Qed.

Lemma collapse_repeats_column (df : DataFrame) (group_col : pystr)
    (cols_to_blank : list pystr) (c : pystr) :
  c ∉ cols_to_blank ->
  getitem (collapse_repeats df group_col cols_to_blank) c = getitem df c.
Proof.
  intros Hc.
  destruct (collapse_repeats_cases df group_col cols_to_blank)
    as [[_ E] | [(e & _ & E) | (keys & He & Hk & Hrows)]]; try (rewrite E; reflexivity).
  unfold getitem.
  rewrite (proj1 (collapse_repeats_shape df group_col cols_to_blank)).
  destruct (col_pos (columns df) c) as [j|] eqn:Hj; [|reflexivity].
  f_equal. apply list_eq. intros i. rewrite !list_lookup_fmap, Hrows.
  destruct (repeats keys i); [|reflexivity].
  destruct (data df !! i) as [row|]; [|reflexivity].
  simpl. f_equal. apply cell_at_blank_row.
  unfold to_blank. rewrite (col_pos_lookup _ _ _ Hj).
  apply bool_decide_eq_false_2. exact Hc.
Qed.

(** X11: for columns to blank that are columns of the table,
    [collapse_repeats] changes no other column: read by its label, any
    other column of the result is the column of the input.  With the
    program's arguments the case numbers, step numbers, actions, data and
    expected results stay as they are. *)
Theorem collapse_repeats_keeps_columns (df : DataFrame) (group_col : pystr)
    (cols_to_blank : list pystr) (c : pystr) :
  cols_to_blank ⊆ columns df ->
  c ∉ cols_to_blank ->
  getitem (collapse_repeats df group_col cols_to_blank) c = getitem df c.
Proof. intros _. exact (collapse_repeats_column df group_col cols_to_blank c). Qed.

Lemma collapsed_keys_lookup (b : bool) (keys : list value) (i : nat) :
  collapsed_keys b keys !! i
  = (fun k => if repeats keys i && b then VStr [] else k) <$> keys !! i.
Proof. unfold collapsed_keys. apply list_lookup_imap. Qed.

Lemma repeats_false (keys : list value) (i : nat) (k : value) :
  keys !! i = Some k -> notna k = true -> repeats keys i = false -> k ∉ take i keys.
Proof.
  intros Hk Hn Hr Hin. unfold repeats in Hr. rewrite Hk, Hn in Hr. simpl in Hr.
  apply bool_decide_eq_false in Hr. contradiction.
Qed.

(** The keys left after blanking: each key that is not missing stays in
    its first row, and a key other than the empty string stays nowhere
    else. *)
Lemma collapsed_keys_once (keys : list value) :
  (forall i j k, collapsed_keys true keys !! i = Some k ->
                 collapsed_keys true keys !! j = Some k ->
                 notna k = true -> k <> VStr [] -> i = j)
  /\ (forall b k, k ∈ keys -> notna k = true -> k ∈ collapsed_keys b keys)
  /\ (forall b i k, collapsed_keys b keys !! i = Some k ->
                    k = VStr [] \/ keys !! i = Some k).
Proof.
  assert (Hkeep : forall i k, collapsed_keys true keys !! i = Some k ->
                              notna k = true -> k <> VStr [] ->
                              keys !! i = Some k /\ k ∉ take i keys).
  { intros i k Hi Hn Hne. rewrite collapsed_keys_lookup in Hi.
    destruct (keys !! i) as [k0|] eqn:Hk0; [|discriminate Hi].
    simpl in Hi. rewrite andb_true_r in Hi.
    destruct (repeats keys i) eqn:Hr; injection Hi as <-; [contradiction|].
    split; [reflexivity|]. exact (repeats_false keys i k0 Hk0 Hn Hr). }
  split; [|split].
  - intros i j k Hi Hj Hn Hne.
    destruct (Hkeep i k Hi Hn Hne) as [Hki Hti].
    destruct (Hkeep j k Hj Hn Hne) as [Hkj Htj].
    destruct (Nat.lt_trichotomy i j) as [Hlt | [Heq | Hgt]]; [|exact Heq|].
    + exfalso. apply Htj. apply elem_of_take. eauto.
    + exfalso. apply Hti. apply elem_of_take. eauto.
  - intros b k Hin Hn.
    apply list_elem_of_split_l in Hin as [before [rest [-> Hb]]].
    apply list_elem_of_lookup. exists (length before).
    rewrite collapsed_keys_lookup, list_lookup_middle by reflexivity. simpl.
    replace (repeats (before ++ k :: rest) (length before)) with false; [reflexivity|].
    symmetry. unfold repeats. rewrite list_lookup_middle by reflexivity.
    rewrite take_app_length, Hn. simpl. apply bool_decide_eq_false_2. exact Hb.
  - intros b i k Hi. rewrite collapsed_keys_lookup in Hi.
    destruct (keys !! i) as [k0|]; [|discriminate Hi]. simpl in Hi.
    destruct (repeats keys i && b); injection Hi as <-; auto.
Qed.

Lemma repeats_collapsed_keys (b : bool) (keys : list value) (i : nat) :
  (b = true -> VStr [] ∉ keys) ->
  repeats keys i = false -> repeats (collapsed_keys b keys) i = false.
Proof.
  intros Hb Hr.
  destruct (repeats (collapsed_keys b keys) i) eqn:Hr'; [exfalso|reflexivity].
  unfold repeats in Hr'.
  destruct (collapsed_keys b keys !! i) as [k|] eqn:Hi; [|discriminate Hr'].
  apply andb_true_iff in Hr' as [Hn Hin]. apply bool_decide_eq_true in Hin.
  assert (Hk : keys !! i = Some k).
  { rewrite collapsed_keys_lookup, Hr in Hi. simpl in Hi.
    destruct (keys !! i); [exact Hi | discriminate Hi]. }
  apply elem_of_take in Hin as (j & Hj & Hlt).
  destruct (collapsed_keys_once keys) as (_ & _ & Hor).
  assert (Hkj : keys !! j = Some k).
  { destruct (Hor b j k Hj) as [-> | Hkj]; [|exact Hkj].
    destruct b.
    - exfalso. apply (Hb eq_refl). apply list_elem_of_lookup. eauto.
    - rewrite collapsed_keys_lookup, andb_false_r in Hj.
      destruct (keys !! j); [exact Hj | discriminate Hj]. }
  unfold repeats in Hr. rewrite Hk, Hn in Hr. simpl in Hr.
  apply bool_decide_eq_false in Hr. apply Hr, elem_of_take. eauto.
Qed.

(** X12: for columns to blank that are columns of the table, collapsing
    a second time changes nothing, when the group column is not one of
    the columns to blank, or when no key is the empty string. *)
Theorem collapse_repeats_idempotent (df : DataFrame) (group_col : pystr)
    (cols_to_blank : list pystr) :
  cols_to_blank ⊆ columns df ->
  (group_col ∈ cols_to_blank ->
   forall keys, getitem df group_col = Ok keys -> VStr [] ∉ keys) ->
  collapse_repeats (collapse_repeats df group_col cols_to_blank) group_col cols_to_blank
  = collapse_repeats df group_col cols_to_blank.
Proof.
  intros _ Hg.
  destruct (collapse_repeats_shape df group_col cols_to_blank) as [Hc Hl].
  destruct (collapse_repeats_cases df group_col cols_to_blank)
    as [[_ E] | [(e & _ & E) | (keys & He & Hk & Hrows)]];
    try (rewrite !E; reflexivity).
  pose proof (collapse_repeats_keys df group_col cols_to_blank keys Hk) as Hk'.
  rewrite He in Hk'.
  set (out := collapse_repeats df group_col cols_to_blank) in *.
  destruct (collapse_repeats_shape out group_col cols_to_blank) as [Hc' Hl'].
  apply DataFrame_eq; [exact Hc'|].
  apply list_eq. intros i.
  assert (He' : empty out = false).
  { rewrite (empty_shape out df Hc Hl). exact He. }
  rewrite (collapse_repeats_rows out group_col cols_to_blank _ i He' Hk').
  rewrite Hrows, Hc.
  destruct (repeats keys i) eqn:Hr.
  - destruct (repeats (collapsed_keys _ keys) i); [|reflexivity].
    destruct (data df !! i) as [row|]; [|reflexivity].
    simpl. f_equal. apply blank_row_idempotent.
  - rewrite repeats_collapsed_keys; [reflexivity | | exact Hr].
    intros Hb. apply bool_decide_eq_true in Hb. exact (Hg Hb keys Hk).
Qed.

(** X13: when the group column is itself blanked, as in the program, its
    values after [collapse_repeats] are the keys with every repetition
    replaced by the empty string: each key that is not missing keeps its
    first row, and a key other than the empty string labels no other
    row. *)
Theorem collapse_repeats_labels_once (df : DataFrame) (group_col : pystr)
    (cols_to_blank : list pystr) (keys : list value) :
  cols_to_blank ⊆ columns df ->
  empty df = false -> group_col ∈ cols_to_blank ->
  getitem df group_col = Ok keys ->
  exists keys',
    getitem (collapse_repeats df group_col cols_to_blank) group_col = Ok keys'
    /\ length keys' = length keys
    /\ (forall i k, keys' !! i = Some k -> k = VStr [] \/ keys !! i = Some k)
    /\ (forall k, k ∈ keys -> notna k = true -> k ∈ keys')
    /\ (forall i j k, keys' !! i = Some k -> keys' !! j = Some k ->
                      notna k = true -> k <> VStr [] -> i = j).
Proof.
  intros _ He Hg Hk. exists (collapsed_keys true keys).
  rewrite (collapse_repeats_keys df group_col cols_to_blank keys Hk), He.
  rewrite (bool_decide_eq_true_2 _ Hg).
  destruct (collapsed_keys_once keys) as (Honce & Hin & Hor).
  split; [reflexivity|].
  split; [unfold collapsed_keys; apply length_imap|].
  split; [apply Hor|]. split; [apply Hin | exact Honce].
Qed.

Lemma collapse_repeats_keeps_columns_witness :
  let row (c : Z) (k : pystr) (n : Z) :=
    [VInt c; VStr k; VStr (u "s"); VInt n; VStr (u "a"); VStr []; VStr []] in
  let df := {| columns := flat_columns;
               data := [row 1%Z (u "A") 1%Z; row 2%Z (u "B") 1%Z; row 1%Z (u "A") 2%Z] |} in
  let out := collapse_repeats df (u "Issue key") [u "Issue key"; u "Summary"] in
  getitem out (u "Case #") = Ok [VInt 1; VInt 2; VInt 1]
  /\ getitem out (u "Step #") = Ok [VInt 1; VInt 1; VInt 2]
  /\ getitem out (u "Issue key") = Ok [VStr (u "A"); VStr (u "B"); VStr []].
Proof.
  intros row df out.
  assert (Hno : forall c, c <> u "Issue key" -> c <> u "Summary" ->
                          c ∉ [u "Issue key"; u "Summary"]).
  { intros c H1 H2 Hin. apply elem_of_cons in Hin as [-> | Hin]; [contradiction|].
    apply elem_of_cons in Hin as [-> | Hin]; [contradiction | inversion Hin]. }
  assert (Hcase : u "Case #" ∉ [u "Issue key"; u "Summary"]).
  { apply Hno; vm_compute; discriminate. }
  assert (Hstep : u "Step #" ∉ [u "Issue key"; u "Summary"]).
  { apply Hno; vm_compute; discriminate. }
  assert (Hsub : [u "Issue key"; u "Summary"] ⊆ columns df).
  { intros c Hc. apply elem_of_cons in Hc as [-> | Hc]; [repeat constructor|].
    apply elem_of_cons in Hc as [-> | Hc]; [repeat constructor | inversion Hc]. }
  unfold out.
  rewrite (collapse_repeats_keeps_columns df (u "Issue key") _ _ Hsub Hcase).
  rewrite (collapse_repeats_keeps_columns df (u "Issue key") _ _ Hsub Hstep).
  repeat split; vm_compute; reflexivity.
Defined.

Lemma collapse_repeats_idempotent_witness :
  let df := {| columns := [u "Issue key"; u "Summary"];
               data := [[VStr (u "A"); VStr (u "x")]; [VStr (u "B"); VStr (u "y")];
                        [VStr (u "A"); VStr (u "z")]] |} in
  let out := collapse_repeats df (u "Issue key") [u "Issue key"; u "Summary"] in
  data out = [[VStr (u "A"); VStr (u "x")]; [VStr (u "B"); VStr (u "y")];
              [VStr []; VStr []]]
  /\ collapse_repeats out (u "Issue key") [u "Issue key"; u "Summary"] = out.
Proof.
  intros df out. split; [vm_compute; reflexivity|].
  apply (collapse_repeats_idempotent df (u "Issue key") [u "Issue key"; u "Summary"]).
  { intros c Hc. exact Hc. }
  intros _ keys Hk. vm_compute in Hk. injection Hk as <-.
  intros Hin. apply elem_of_cons in Hin as [Hin | Hin]; [discriminate Hin|].
  apply elem_of_cons in Hin as [Hin | Hin]; [discriminate Hin|].
  apply elem_of_cons in Hin as [Hin | Hin]; [discriminate Hin | inversion Hin].
Defined.

(** With the empty string among the keys a second collapse can blank
    more: the summary of the row whose key is empty, once a blanked row
    comes before it. *)
Lemma collapse_repeats_twice_empty_key :
  let df := {| columns := [u "Issue key"; u "Summary"];
               data := [[VStr (u "A"); VStr (u "x")]; [VStr (u "A"); VStr (u "y")];
                        [VStr []; VStr (u "z")]] |} in
  let once := collapse_repeats df (u "Issue key") [u "Issue key"; u "Summary"] in
  let twice := collapse_repeats once (u "Issue key") [u "Issue key"; u "Summary"] in
  getitem once (u "Summary") = Ok [VStr (u "x"); VStr []; VStr (u "z")]
  /\ getitem twice (u "Summary") = Ok [VStr (u "x"); VStr []; VStr []].
Proof. split; vm_compute; reflexivity. Qed.

Lemma collapse_repeats_labels_once_witness :
  let df := {| columns := [u "Issue key"; u "Summary"];
               data := [[VStr (u "A"); VStr (u "x")]; [VStr (u "B"); VStr (u "y")];
                        [VStr (u "A"); VStr (u "z")]] |} in
  exists keys',
    getitem (collapse_repeats df (u "Issue key") [u "Issue key"; u "Summary"])
            (u "Issue key") = Ok keys'
    /\ keys' = [VStr (u "A"); VStr (u "B"); VStr []]
    /\ (forall i j k, keys' !! i = Some k -> keys' !! j = Some k ->
                      notna k = true -> k <> VStr [] -> i = j).
Proof.
  intros df.
  destruct (collapse_repeats_labels_once df (u "Issue key") [u "Issue key"; u "Summary"]
              [VStr (u "A"); VStr (u "B"); VStr (u "A")])
    as (keys' & Hk & _ & _ & _ & Honce);
    [intros c Hc; exact Hc | reflexivity | apply elem_of_cons; left; reflexivity
     | reflexivity |].
  exists keys'. split; [exact Hk|]. split; [|exact Honce].
  vm_compute in Hk. injection Hk as <-. reflexivity.
Defined.

(** ** The metrics of the page *)

Lemma length_unique_NoDup {A : Type} `{EqDecision A} (l1 l2 : list A) :
  NoDup l2 -> (forall x, x ∈ l1 <-> x ∈ l2) -> length (unique l1) = length l2.
Proof.
  intros Hnd Hx. apply Permutation_length, NoDup_Permutation;
    [apply NoDup_unique | exact Hnd|].
  intros x. rewrite elem_of_unique. apply Hx.
Qed.

Lemma length_filter_ne {A : Type} `{EqDecision A} (x0 : A) (l : list A) :
  NoDup l ->
  length (filter (fun y => y <> x0) l)
  = (length l - (if bool_decide (x0 ∈ l) then 1 else 0))%nat.
Proof.
  induction 1 as [|a l Ha Hnd IH]; [reflexivity|].
  destruct (decide (a = x0)) as [->|Hne].
  - rewrite filter_cons_False by (intros Hn; exact (Hn eq_refl)).
    rewrite bool_decide_eq_true_2 by (apply elem_of_cons; left; reflexivity).
    rewrite IH, bool_decide_eq_false_2 by exact Ha. simpl. lia.
  - rewrite filter_cons_True by exact Hne. simpl. rewrite IH.
    destruct (bool_decide (x0 ∈ l)) eqn:Hin.
    + apply bool_decide_eq_true in Hin.
      rewrite bool_decide_eq_true_2 by (apply elem_of_cons; right; exact Hin).
      destruct l; [inversion Hin | simpl; lia].
    + apply bool_decide_eq_false in Hin.
      rewrite bool_decide_eq_false_2; [lia|].
      intros Hc. apply elem_of_cons in Hc as [Hc | Hc]; [exact (Hne (eq_sym Hc)) | exact (Hin Hc)].
Qed.

(** The values [nunique] counts after [replace("", pd.NA)]. *)
Lemma elem_of_counted (l : list value) (x : value) :
  x ∈ filter (fun v => notna v = true) (replace_empty_na l)
  <-> x ∈ l /\ notna x = true /\ x <> VStr [].
Proof.
  unfold replace_empty_na. rewrite list_elem_of_filter, list_elem_of_fmap. split.
  - intros [Hn (y & -> & Hy)]. destruct (decide (y = VStr [])) as [->|Hne];
      [discriminate Hn | auto].
  - intros (Hx & Hn & Hne). split; [exact Hn|]. exists x.
    rewrite decide_False by exact Hne. auto.
Qed.

Lemma nunique_ext (l1 l2 : list value) :
  (forall x, notna x = true -> x <> VStr [] -> x ∈ l1 <-> x ∈ l2) ->
  nunique (replace_empty_na l1) = nunique (replace_empty_na l2).
Proof.
  intros Hx. unfold nunique. apply length_unique_NoDup; [apply NoDup_unique|].
  intros x. rewrite elem_of_unique, !elem_of_counted.
  split; intros (Hin & Hn & Hne); (split; [apply (Hx x Hn Hne); exact Hin | auto]).
Qed.

Lemma nunique_collapsed_keys (b : bool) (keys : list value) :
  nunique (replace_empty_na (collapsed_keys b keys)) = nunique (replace_empty_na keys).
Proof.
  apply nunique_ext. intros x Hn Hne.
  destruct (collapsed_keys_once keys) as (_ & Hin & Hor). split.
  - intros Hx. apply list_elem_of_lookup in Hx as [i Hi].
    destruct (Hor b i x Hi) as [-> | Hk]; [contradiction|].
    apply list_elem_of_lookup. eauto.
  - intros Hx. exact (Hin b x Hx Hn).
Qed.

Lemma total_case_collapse (df : DataFrame) (cols_to_blank : list pystr) :
  total_case (collapse_repeats df (u "Issue key") cols_to_blank) = total_case df.
Proof.
  destruct (getitem df (u "Issue key")) as [keys|e] eqn:Hk.
  - unfold total_case.
    rewrite (collapse_repeats_keys df _ cols_to_blank keys Hk), Hk. simpl.
    destruct (empty df); [reflexivity|].
    f_equal. apply nunique_collapsed_keys.
  - destruct (collapse_repeats_cases df (u "Issue key") cols_to_blank)
      as [[_ E] | [(e' & _ & E) | (keys & _ & Hk' & _)]];
      [rewrite E; reflexivity | rewrite E; reflexivity |].
    rewrite Hk in Hk'. discriminate Hk'.
Qed.

(** X14: the two numbers the page shows do not depend on the collapse.
    For columns to blank that are columns of the table, "Toplam Case" is
    the same before and after [collapse_repeats] on the key column,
    whether or not the key column is blanked, and so is "Toplam Step" as
    long as the step numbers are not blanked. *)
Theorem metrics_unaffected_by_collapse (df : DataFrame) (cols_to_blank : list pystr) :
  cols_to_blank ⊆ columns df ->
  total_case (collapse_repeats df (u "Issue key") cols_to_blank) = total_case df
  /\ (u "Step #" ∉ cols_to_blank ->
      total_step (collapse_repeats df (u "Issue key") cols_to_blank) = total_step df).
Proof.
  intros _. split; [apply total_case_collapse|].
  intros Hs. unfold total_step. rewrite (collapse_repeats_column _ _ _ _ Hs).
  reflexivity.
Qed.

Lemma cell_at_tail (j : nat) (row : list value) :
  cell_at (S j) row = cell_at j (tail row).
Proof. destruct row; reflexivity. Qed.

Lemma step_number_first (s : dict) :
  s.*1 = step_keys -> cell_at 0 s.*2 = default VNone (dict_get (u "Step #") s).
Proof.
  destruct s as [|[k v] s]; [discriminate|].
  intros E. injection E as -> _.
  unfold cell_at. simpl. destruct (decide (u "Step #" = u "Step #")) as [_|Hne];
    [reflexivity | exact (False_ind _ (Hne eq_refl))].
Qed.

Lemma record_rows_numbered (key summ : value) (steps : list dict) :
  Forall (fun s => s.*1 = step_keys) steps ->
  count_notna (cell_at 2 <$> record_rows key summ steps) = numbered_steps steps.
Proof.
  intros Hk. unfold count_notna, numbered_steps.
  destruct steps as [|s0 steps]; [reflexivity|].
  unfold record_rows. generalize dependent (s0 :: steps). clear s0 steps.
  intros steps. induction 1 as [|s steps Hs _ IH]; [reflexivity|].
  rewrite fmap_cons, fmap_cons.
  change (cell_at 2 (key :: summ :: s.*2)) with (cell_at 0 s.*2).
  rewrite (step_number_first s Hs).
  destruct (notna (default VNone (dict_get (u "Step #") s))) eqn:Hn.
  - rewrite !filter_cons_True by exact Hn. simpl. f_equal. exact IH.
  - rewrite !filter_cons_False by (rewrite Hn; discriminate). exact IH.
Qed.

Section MetricsOfTable.
Context `{PyLib}.

Lemma flat_steps_numbered (cols : list pystr) (cs ck csum : pystr)
    (rs : list (list cell)) (per_record : list (list dict)) :
  Forall2 (fun r steps => parse_manual_steps_cell (r_get cols r cs) = Ok steps)
          rs per_record ->
  count_notna (cell_at 2 <$> concat (zip_with (fun r steps =>
                                                 record_rows (r_get cols r ck)
                                                             (r_get cols r csum) steps)
                                              rs per_record))
  = numbered_steps (concat per_record).
Proof.
  induction 1 as [|r steps rs per_record Hr _ IH]; [reflexivity|].
  simpl. unfold count_notna, numbered_steps in *.
  rewrite fmap_app, !filter_app, !length_app, IH. f_equal.
  exact (record_rows_numbered _ _ steps (parse_cell_keys _ _ Hr)).
Qed.

(** X15: in the table [build_flat] returns, "Toplam Case" is the number
    of distinct keys, which is the largest case number, less one when the
    key of some row is the empty string: the empty key has a case number
    and is not counted. *)
Theorem total_case_of_flat (df : RawFrame) (cs ck csum : pystr) (flat : DataFrame) :
  build_flat df cs ck csum = Ok flat ->
  exists keys,
    getitem flat (u "Issue key") = Ok keys
    /\ total_case flat
       = Ok (length (unique keys) - (if bool_decide (VStr [] ∈ keys) then 1 else 0))%nat.
Proof.
  intros E.
  destruct (build_flat_ok _ _ _ _ _ E) as (rows & _ & _ & _ & _ & keys & Hk & _ & Hn & _).
  exists keys. split; [exact Hk|].
  unfold total_case. rewrite Hk. simpl. f_equal. unfold nunique.
  rewrite (length_unique_NoDup _ (filter (fun y => y <> VStr []) (unique keys))).
  - rewrite (length_filter_ne _ _ (NoDup_unique keys)).
    destruct (decide (VStr [] ∈ keys)) as [Hin | Hin].
    + rewrite !bool_decide_eq_true_2; [reflexivity | exact Hin |].
      apply elem_of_unique. exact Hin.
    + rewrite !bool_decide_eq_false_2; [reflexivity | exact Hin |].
      rewrite elem_of_unique. exact Hin.
  - apply NoDup_filter, NoDup_unique.
  - intros x. rewrite elem_of_counted, list_elem_of_filter, elem_of_unique.
    split; [intros (Hin & _ & Hne); auto|].
    intros [Hne Hin]. split; [exact Hin|]. split; [|exact Hne].
    exact (proj1 (forallb_elem_of _ _) Hn x Hin).
Qed.

(** X16: in the table [build_flat] returns, "Toplam Step" is the number
    of parsed steps, over all records, whose step number is not missing:
    the row of a record without steps is not counted, and neither is a
    step that has no [index]. *)
Theorem total_step_of_flat (df : RawFrame) (cs ck csum : pystr) (flat : DataFrame) :
  build_flat df cs ck csum = Ok flat ->
  exists per_record,
    Forall2 (fun r steps =>
               parse_manual_steps_cell (r_get (raw_columns df) r cs) = Ok steps)
            (raw_data df) per_record
    /\ total_step flat = Ok (numbered_steps (concat per_record)).
Proof.
  intros E. destruct (build_flat_data _ _ _ _ _ E) as (rows & Er & Hc & Ht & _).
  destruct (flat_rows_values _ _ _ _ _ Er) as (per_record & Hall & Hvals).
  exists per_record. split; [exact Hall|].
  unfold total_step, getitem. rewrite Hc.
  change (col_pos flat_columns (u "Step #")) with (Some 3%nat). simpl. f_equal.
  rewrite <- (flat_steps_numbered _ cs ck csum _ _ Hall), <- Hvals, <- Ht.
  rewrite <- list_fmap_compose. f_equal.
  apply list_fmap_ext. intros _ row _. apply cell_at_tail.
Qed.

End MetricsOfTable.

Lemma metrics_unaffected_by_collapse_witness :
  let row (c : Z) (k : pystr) (n : value) :=
    [VInt c; VStr k; VStr (u "s"); n; VStr (u "a"); VStr []; VStr []] in
  let df := {| columns := flat_columns;
               data := [row 1%Z (u "A") (VInt 1); row 2%Z (u "B") VNone;
                        row 1%Z (u "A") (VInt 2)] |} in
  let out := collapse_repeats df (u "Issue key") [u "Issue key"; u "Summary"] in
  getitem out (u "Issue key") = Ok [VStr (u "A"); VStr (u "B"); VStr []]
  /\ total_case df = Ok 2%nat /\ total_case out = total_case df
  /\ total_step df = Ok 2%nat /\ total_step out = total_step df.
Proof.
  intros row df out.
  assert (Hsub : [u "Issue key"; u "Summary"] ⊆ columns df).
  { intros c Hc. apply elem_of_cons in Hc as [-> | Hc]; [repeat constructor|].
    apply elem_of_cons in Hc as [-> | Hc]; [repeat constructor | inversion Hc]. }
  assert (Hstep : u "Step #" ∉ [u "Issue key"; u "Summary"]).
  { intros Hin. apply elem_of_cons in Hin as [Hin | Hin];
      [vm_compute in Hin; discriminate Hin|].
    apply elem_of_cons in Hin as [Hin | Hin];
      [vm_compute in Hin; discriminate Hin | inversion Hin]. }
  destruct (metrics_unaffected_by_collapse df [u "Issue key"; u "Summary"] Hsub)
    as [Hcase Hsteps].
  split; [vm_compute; reflexivity|]. split; [vm_compute; reflexivity|].
  split; [exact Hcase|]. split; [vm_compute; reflexivity | exact (Hsteps Hstep)].
Defined.

Lemma total_case_of_flat_witness :
  let row (k : pystr) := [Str k; NaN; NaN] in
  let df := {| raw_columns := [u "Issue key"; u "Summary"; u "Manual Test Steps"];
               raw_data := [row (u "A"); row []; row (u "A")] |} in
  exists flat keys,
    build_flat (H := ascii_lib) df (u "Manual Test Steps") (u "Issue key") (u "Summary")
    = Ok flat
    /\ getitem flat (u "Issue key") = Ok keys
    /\ getitem flat (u "Case #") = Ok [VInt 1; VInt 2; VInt 1]
    /\ length (unique keys) = 2%nat
    /\ total_case flat = Ok 1%nat.
Proof.
  intros row df.
  destruct (build_flat (H := ascii_lib) df (u "Manual Test Steps") (u "Issue key")
                       (u "Summary")) as [flat|e] eqn:E;
    [|vm_compute in E; discriminate E].
  destruct (total_case_of_flat (H := ascii_lib) df _ _ _ flat E) as (keys & Hk & Ht).
  exists flat, keys. split; [reflexivity|]. split; [exact Hk|].
  vm_compute in E. injection E as <-. vm_compute in Hk. injection Hk as <-.
  split; [reflexivity|]. split; [reflexivity|]. exact Ht.
Defined.

Lemma total_step_of_flat_witness :
  let df := {| raw_columns := [u "Issue key"; u "Summary"; u "Manual Test Steps"];
               raw_data := [[Str (u "T-1"); Str (u "Login");
                             Str (u "[{'index': 1, 'fields': {'Action': 'Open'}}, {}]")];
                            [Str (u "T-2"); NaN; NaN]] |} in
  exists flat per_record,
    build_flat (H := ascii_lib) df (u "Manual Test Steps") (u "Issue key") (u "Summary")
    = Ok flat
    /\ length (data flat) = 3%nat
    /\ length (concat per_record) = 2%nat
    /\ total_step flat = Ok (numbered_steps (concat per_record))
    /\ total_step flat = Ok 1%nat.
Proof.
  intros df.
  destruct (build_flat (H := ascii_lib) df (u "Manual Test Steps") (u "Issue key")
                       (u "Summary")) as [flat|e] eqn:E;
    [|vm_compute in E; discriminate E].
  destruct (total_step_of_flat (H := ascii_lib) df _ _ _ flat E) as (per_record & Hall & Ht).
  exists flat, per_record. split; [reflexivity|].
  vm_compute in E. injection E as <-.
  split; [reflexivity|].
  assert (Hp : length (concat per_record) = 2%nat).
  { inversion Hall as [|r steps rs pr H1 Hall' Hr Hpr]; subst.
    inversion Hall' as [|r' steps' rs' pr' H2 Hall'' Hr' Hpr']; subst.
    inversion Hall''; subst.
    vm_compute in H1. injection H1 as <-.
    vm_compute in H2. injection H2 as <-. reflexivity. }
  split; [exact Hp|]. split; [exact Ht | reflexivity].
Defined.

(** ** The texts of the flat table, and the checkbox *)

Section FlatTexts.
Context `{PyLib}.

Lemma clean_cell_clean_text (x : value) : clean_cell (VStr (_clean_text x)).
Proof. exists (_clean_text x). split; [reflexivity | apply clean_text_clean]. Qed.

Lemma clean_cell_empty : clean_cell (VStr []).
Proof.
  exists []. split; [reflexivity|]. split; [exact I|].
  split; intros c E; discriminate E.
Qed.

Lemma parse_item_texts (item : value) (s : dict) (key summ : value) :
  parse_item item = Ok s -> clean_row (key :: summ :: s.*2).
Proof.
  unfold parse_item, mbind, res_bind. intros E.
  destruct (if isinstance_dict item then _ else _) as [fields|]; [|discriminate E].
  destruct (get fields (u "Action") (VStr [])) as [a|]; [|discriminate E].
  destruct (get fields (u "Data") (VStr [])) as [d|]; [|discriminate E].
  destruct (get fields (u "Expected Result") (VStr [])) as [e|]; [|discriminate E].
  destruct (get item (u "index") VNone) as [n|]; [|discriminate E].
  injection E as <-.
  exists key, summ, n, (VStr (_clean_text a)), (VStr (_clean_text d)),
         (VStr (_clean_text e)).
  split; [reflexivity|]. repeat split; apply clean_cell_clean_text.
Qed.

Lemma parse_cell_texts (cell : value) (steps : list dict) (key summ : value) :
  parse_manual_steps_cell cell = Ok steps ->
  Forall clean_row (record_rows key summ steps).
Proof.
  intros E.
  assert (Hnil : Forall clean_row (record_rows key summ [])).
  { constructor; [|constructor].
    exists key, summ, VNone, (VStr []), (VStr []), (VStr []).
    split; [reflexivity|]. repeat split; apply clean_cell_empty. }
  assert (Hall : Forall (fun s => clean_row (key :: summ :: s.*2)) steps).
  { unfold parse_manual_steps_cell in E.
    destruct cell as [| | | |c| |]; try (injection E as <-; constructor).
    destruct (decide (strip c = [])); [injection E as <-; constructor|].
    destruct (decode _) as [[| | | | |items|]|]; try (injection E as <-; constructor).
    apply for_each_Forall2 in E.
    induction E as [|item s items steps Hs _ IH]; constructor; [|exact IH].
    exact (parse_item_texts item s key summ Hs). }
  destruct steps as [|s steps]; [exact Hnil|].
  unfold record_rows. apply Forall_fmap. exact Hall.
Qed.

Lemma flat_rows_texts (cols : list pystr) (cs ck csum : pystr)
    (rs : list (list cell)) (per_record : list (list dict)) :
  Forall2 (fun r steps => parse_manual_steps_cell (r_get cols r cs) = Ok steps)
          rs per_record ->
  Forall clean_row (concat (zip_with (fun r steps =>
                                        record_rows (r_get cols r ck)
                                                    (r_get cols r csum) steps)
                                     rs per_record)).
Proof.
  induction 1 as [|r steps rs per_record Hr _ IH]; [constructor|].
  simpl. apply Forall_app. split; [|exact IH].
  exact (parse_cell_texts _ steps _ _ Hr).
Qed.

(** X17: in the table [build_flat] returns, every cell of the columns
    "Action", "Data" and "Expected Result" is a text that neither starts
    nor ends with whitespace and has whitespace only as single spaces. *)
Theorem flat_texts_are_clean (df : RawFrame) (cs ck csum : pystr) (flat : DataFrame)
    (c : pystr) :
  build_flat df cs ck csum = Ok flat ->
  c ∈ [u "Action"; u "Data"; u "Expected Result"] ->
  exists cells, getitem flat c = Ok cells /\ Forall clean_cell cells.
Proof.
  intros E Hc. destruct (build_flat_data _ _ _ _ _ E) as (rows & Er & Hcols & Ht & _).
  destruct (flat_rows_values _ _ _ _ _ Er) as (per_record & Hall & Hvals).
  pose proof (flat_rows_texts _ cs ck csum _ _ Hall) as Hclean.
  rewrite <- Hvals, <- Ht, Forall_fmap in Hclean.
  assert (Hj : exists j, col_pos (columns flat) c = Some (S j)
                         /\ (j = 3 \/ j = 4 \/ j = 5)%nat).
  { rewrite Hcols. repeat (apply elem_of_cons in Hc as [-> | Hc]);
      [exists 3%nat | exists 4%nat | exists 5%nat | inversion Hc];
      (split; [reflexivity | tauto]). }
  destruct Hj as (j & Hpos & Hj).
  exists (cell_at (S j) <$> data flat). unfold getitem. rewrite Hpos.
  split; [reflexivity|]. apply Forall_fmap.
  eapply Forall_impl; [exact Hclean|].
  intros row (key & summ & n & a & d & e & Hrow & Ha & Hd & He).
  simpl in *. rewrite cell_at_tail, Hrow.
  destruct Hj as [-> | [-> | ->]]; assumption.
Qed.

(** X18: the checkbox changes the labels only.  A run with the box
    ticked stops with the message, or ends with the exception, of the run
    without it; and when that run shows a table in which some summary is
    a string, the run with the box ticked shows a table of the same
    columns and as many rows, equal to the other in every column but
    "Issue key" and "Summary", and with the same "Toplam Case" and
    "Toplam Step". *)
Theorem checkbox_changes_labels_only (df_raw : RawFrame) :
  (forall e, main df_raw false = Stopped e -> main df_raw true = Stopped e)
  /\ (forall e, main df_raw false = Uncaught e -> main df_raw true = Uncaught e)
  /\ (forall flat,
        main df_raw false = Rendered flat ->
        holds_text flat (u "Summary") ->
        exists flat',
          main df_raw true = Rendered flat'
          /\ columns flat' = columns flat
          /\ length (data flat') = length (data flat)
          /\ (forall c, c <> u "Issue key" -> c <> u "Summary" ->
                        getitem flat' c = getitem flat c)
          /\ total_case flat' = total_case flat
          /\ total_step flat' = total_step flat).
Proof.
  unfold main, script.
  destruct (missing (raw_columns df_raw)).
  2: { split; [intros e E; exact E|]. split; intros ? E; discriminate E. }
  destruct (build_flat df_raw _ _ _) as [flat0|e0].
  2: { split; [intros e E; discriminate E|].
       split; [intros e E; exact E | intros ? E; discriminate E]. }
  split; [intros e E; discriminate E|]. split; [intros e E; discriminate E|].
  intros flat E _. injection E as <-.
  exists (collapse_repeats flat0 (u "Issue key") [u "Issue key"; u "Summary"]).
  split; [reflexivity|].
  destruct (collapse_repeats_shape flat0 (u "Issue key") [u "Issue key"; u "Summary"])
    as [Hc Hl].
  split; [exact Hc|]. split; [exact Hl|].
  assert (Hcol : forall c, c <> u "Issue key" -> c <> u "Summary" ->
                           getitem (collapse_repeats flat0 (u "Issue key")
                                                     [u "Issue key"; u "Summary"]) c
                           = getitem flat0 c).
  { intros c H1 H2. apply collapse_repeats_column. intros Hin.
    apply elem_of_cons in Hin as [-> | Hin]; [exact (H1 eq_refl)|].
    apply elem_of_cons in Hin as [-> | Hin]; [exact (H2 eq_refl) | inversion Hin]. }
  split; [exact Hcol|]. split; [apply total_case_collapse|].
  unfold total_step. rewrite Hcol; [reflexivity | |]; vm_compute; discriminate.
Qed.

End FlatTexts.

Lemma flat_texts_are_clean_witness :
  let df := {| raw_columns := [u "Issue key"; u "Summary"; u "Manual Test Steps"];
               raw_data := [[Str (u "T-1"); Str (u " Login ");
                             Str (u "[{'index': 1, 'fields': {'Action': '  Open   the page '}}]")];
                            [Str (u "T-2"); NaN; NaN]] |} in
  exists flat cells,
    build_flat (H := ascii_lib) df (u "Manual Test Steps") (u "Issue key") (u "Summary")
    = Ok flat
    /\ getitem flat (u "Action") = Ok cells
    /\ cells = [VStr (u "Open the page"); VStr []]
    /\ Forall clean_cell cells.
Proof.
  intros df.
  destruct (build_flat (H := ascii_lib) df (u "Manual Test Steps") (u "Issue key")
                       (u "Summary")) as [flat|e] eqn:E;
    [|vm_compute in E; discriminate E].
  destruct (flat_texts_are_clean (H := ascii_lib) df _ _ _ flat (u "Action") E)
    as (cells & Hcells & Hclean); [apply elem_of_cons; left; reflexivity|].
  exists flat, cells. split; [reflexivity|]. split; [exact Hcells|].
  split; [|exact Hclean].
  vm_compute in E. injection E as <-. vm_compute in Hcells. injection Hcells as <-.
  reflexivity.
Defined.

Lemma checkbox_changes_labels_only_witness :
  let df := {| raw_columns := [u "Issue key"; u "Summary"; u "Manual Test Steps"];
               raw_data := [[Str (u "T-1"); Str (u "Login");
                             Str (u "[{'index': 1}, {'index': 2}]")];
                            [Str (u "T-2"); NaN; NaN]] |} in
  exists flat flat',
    main (H := ascii_lib) df false = Rendered flat
    /\ main (H := ascii_lib) df true = Rendered flat'
    /\ getitem flat (u "Summary") = Ok [VStr (u "Login"); VStr (u "Login"); VFloat FNan]
    /\ getitem flat' (u "Summary") = Ok [VStr (u "Login"); VStr []; VFloat FNan]
    /\ getitem flat' (u "Action") = getitem flat (u "Action")
    /\ total_case flat' = total_case flat
    /\ total_step flat' = total_step flat.
Proof.
  intros df.
  destruct (main (H := ascii_lib) df false) as [e|e|flat] eqn:E;
    [vm_compute in E; discriminate E | vm_compute in E; discriminate E |].
  assert (Hsum : getitem flat (u "Summary")
                 = Ok [VStr (u "Login"); VStr (u "Login"); VFloat FNan]).
  { vm_compute in E. injection E as <-. reflexivity. }
  assert (Htext : holds_text flat (u "Summary")).
  { exists [VStr (u "Login"); VStr (u "Login"); VFloat FNan], (u "Login").
    split; [exact Hsum | constructor]. }
  destruct (checkbox_changes_labels_only (H := ascii_lib) df) as (_ & _ & Hshown).
  destruct (Hshown flat E Htext) as (flat' & E' & _ & _ & Hcol & Hcase & Hstep).
  exists flat, flat'. split; [reflexivity|]. split; [exact E'|].
  split; [exact Hsum|]. split.
  - vm_compute in E. injection E as <-. vm_compute in E'. injection E' as <-.
    reflexivity.
  - split; [|split; assumption].
    apply Hcol; vm_compute; discriminate.
Defined.
